(** * Lighter-Hub: the extension sandbox runtime

    A shallow embedding of the extension runtime of the Lighter-Hub host
    application:

    - [Js]: the fragment of JavaScript values the host inspects (truthiness,
      [typeof], string conversion, strict equality, property reads);
    - [ExtensionContext]: [evalMainJs], [parseZipBuffer], the storage helpers
      and the install / uninstall / rehydration flows of [ExtensionProvider]
      (src/app/contexts/ExtensionContext.tsx);
    - [ExtensionNavigator]: the per-tab navigation stack;
    - [MediaPlayerContext]: the audio-notification and video bridges;
    - [SandboxAPI]: the [musicPlayer] / [videoPlayer] handles of [buildAPI].

    The host is single threaded.  An operation that awaits (install,
    uninstall, rehydration) is taken to run to its end with no other operation
    slipping in at its awaits; the navigation stack, whose calls and state
    updates are separate steps of the event loop, is modelled step by step.
    The JavaScript engine, the archive parser and the outcome of each access
    to the durable store are parameters. *)

From Stdlib Require Import String Ascii List ZArith Lia Bool DecimalString.
From Stdlib Require Import Floats.
Import ListNotations.
Set Warnings "-register-all".
Set Warnings "-inexact-float".
Open Scope string_scope.
Open Scope Z_scope.

(* ------------------------------------------------------------------ *)
(** ** Strings *)

(** The double-quote character, built from its code point. *)
Definition dq : string := String (ascii_of_nat 34) EmptyString.

(** [quoted s] is [s] between double quotes, as the messages print field
    names. *)
Definition quoted (s : string) : string := dq ++ s ++ dq.

(** [hay.startsWith(needle)]. *)
Fixpoint startsWith (needle hay : string) : bool :=
  match needle with
  | EmptyString => true
  | String a needle' =>
      match hay with
      | EmptyString => false
      | String b hay' => Ascii.eqb a b && startsWith needle' hay'
      end
  end.

(** [hay.includes(needle)]. *)
Fixpoint includes (needle hay : string) : bool :=
  startsWith needle hay ||
  match hay with
  | EmptyString => false
  | String _ rest => includes needle rest
  end.

(** [Array.prototype.join] on an array of strings. *)
Fixpoint join (sep : string) (l : list string) : string :=
  match l with
  | [] => ""
  | [x] => x
  | x :: rest => x ++ sep ++ join sep rest
  end.

(* ------------------------------------------------------------------ *)
(** ** Numbers as text *)

(** The Number nearest to an integer: 53 significant bits, ties to even. *)
Definition round53 (m : Z) : Z :=
  let a := Z.abs m in
  let b := Z.log2 a + 1 in
  if b <=? 53 then m
  else
    let sh := b - 53 in
    let q := Z.shiftr a sh in
    let r := a - Z.shiftl q sh in
    let half := Z.shiftl 1 (sh - 1) in
    let q' := if (half <? r) || ((r =? half) && Z.odd q) then q + 1 else q in
    Z.sgn m * Z.shiftl q' sh.

(** The value of the Number an integer literal denotes; [2 ^ 1024] and its
    opposite stand for the two infinities. *)
Definition numberOf (n : Z) : Z :=
  let x := round53 n in
  if 2 ^ 1024 <=? Z.abs x then Z.sgn x * 2 ^ 1024 else x.

Definition digitsOf (n : Z) : string := NilZero.string_of_uint (N.to_uint (Z.to_N n)).

Definition countDigits (n : Z) : Z := Z.of_nat (String.length (digitsOf n)).

Fixpoint zeros (n : nat) : string :=
  match n with
  | O => ""
  | S n' => "0" ++ zeros n'
  end.

(** [s] has [k] digits and [s * 10 ^ (n - k)] is a decimal of the Number
    [x]. *)
Definition candidate (x n k s : Z) : bool :=
  (10 ^ (k - 1) <=? s) && (s <? 10 ^ k) && (round53 (s * 10 ^ (n - k)) =? x).

Definition closer (x n k s1 s2 : Z) : Z :=
  let d1 := Z.abs (s1 * 10 ^ (n - k) - x) in
  let d2 := Z.abs (s2 * 10 ^ (n - k) - x) in
  if d1 <? d2 then s1 else if d2 <? d1 then s2 else if Z.even s1 then s1 else s2.

Definition shortestAt (x n k : Z) : option Z :=
  if n <? k then None else
  let lo := x / 10 ^ (n - k) in
  let hi := lo + 1 in
  match candidate x n k lo, candidate x n k hi with
  | true, true => Some (closer x n k lo hi)
  | true, false => Some lo
  | false, true => Some hi
  | false, false => None
  end.

(** The fewest digits [k], the digits [s] and the length [n] of the integer
    they print, for a positive integral Number [x] of [d] digits. *)
Fixpoint shortest (fuel : nat) (x d k : Z) : Z * Z * Z :=
  match fuel with
  | O => (x, d, d)
  | S fuel' =>
      match shortestAt x d k with
      | Some s => (s, d, k)
      | None =>
          match shortestAt x (d + 1) k with
          | Some s => (s, d + 1, k)
          | None => shortest fuel' x d (k + 1)
          end
      end
  end.

Definition printPositive (x : Z) : string :=
  if 2 ^ 1024 <=? x then "Infinity" else
  let '(s, n, k) := shortest 17 x (countDigits x) 1 in
  let ds := digitsOf s in
  if n <=? 21 then ds ++ zeros (Z.to_nat (n - k))
  else
    match ds with
    | String c rest =>
        String c (if k =? 1 then "" else "." ++ rest) ++ "e+" ++ digitsOf (n - 1)
    | EmptyString => ""
    end.

(** [Number::toString] on the Number the integer [n] denotes: the shortest
    digits that read back as that Number, in plain form up to 21 digits and
    with an exponent beyond. *)
Definition printNumber (n : Z) : string :=
  match numberOf n with
  | Z0 => "0"
  | Zpos p => printPositive (Zpos p)
  | Zneg p => "-" ++ printPositive (Zpos p)
  end.

(* ------------------------------------------------------------------ *)
(** ** JavaScript values *)

Module Js.

(** Primitive values, as a function of an extension returns or throws
    them. *)
Inductive prim : Type :=
| PUndefined
| PNull
| PBool (b : bool)
| PNum (n : Z)
| PNaN
| PStr (s : string).

(** What a [throw] carries: an [Error] or a [TypeError] with its [message],
    or a bare primitive. *)
Inductive thrown : Type :=
| Error (message : string)
| TypeError (message : string)
| Bare (p : prim).

(** How a call of a function of an extension, made without arguments, ends;
    it is taken to end the same way each time. *)
Inductive completion : Type :=
| Returns (p : prim)
| ReturnsObject
| Throws (e : thrown).

(** The values an extension module hands to the host.  Objects, arrays and
    functions carry an allocation identity [ref], which only [===] looks at.
    An object is its own data properties under string keys, on the prototype
    [Object.prototype]; accessor properties, proxies, symbols and class
    instances are not modelled.  A number [VNum n] is the Number the integer
    literal [n] denotes; fractions are not modelled.  A string is the
    sequence of its code units, all below 256.  A function is its source text
    and the way a call of it without arguments ends. *)
Inductive value : Type :=
| VUndefined
| VNull
| VBool (b : bool)
| VNum (n : Z)
| VNaN
| VStr (s : string)
| VFun (ref : nat) (src : string) (ends : completion)
| VObj (ref : nat) (props : list (string * value))
| VArr (ref : nat) (elems : list value).

Inductive jstype : Type :=
| TUndefined | TObject | TBoolean | TNumber | TString | TFunction.

Definition jstype_eqb (a b : jstype) : bool :=
  match a, b with
  | TUndefined, TUndefined | TObject, TObject | TBoolean, TBoolean
  | TNumber, TNumber | TString, TString | TFunction, TFunction => true
  | _, _ => false
  end.

(** The [typeof] operator. *)
Definition typeOf (v : value) : jstype :=
  match v with
  | VUndefined => TUndefined
  | VNull => TObject
  | VBool _ => TBoolean
  | VNum _ | VNaN => TNumber
  | VStr _ => TString
  | VFun _ _ _ => TFunction
  | VObj _ _ | VArr _ _ => TObject
  end.

Definition typeName (t : jstype) : string :=
  match t with
  | TUndefined => "undefined"
  | TObject => "object"
  | TBoolean => "boolean"
  | TNumber => "number"
  | TString => "string"
  | TFunction => "function"
  end.

(** ToBoolean: the falsy values are [undefined], [null], [false], [0], [NaN]
    and the empty string. *)
Definition truthy (v : value) : bool :=
  match v with
  | VUndefined | VNull | VNaN => false
  | VBool b => b
  | VNum n => negb (n =? 0)
  | VStr s => negb (String.eqb s "")
  | VFun _ _ _ | VObj _ _ | VArr _ _ => true
  end.

Definition nullish (v : value) : bool :=
  match v with
  | VUndefined | VNull => true
  | _ => false
  end.

Definition isArray (v : value) : bool :=
  match v with
  | VArr _ _ => true
  | _ => false
  end.

Definition elements (v : value) : list value :=
  match v with
  | VArr _ es => es
  | _ => []
  end.

Inductive result (A : Type) : Type :=
| Ok (a : A)
| Throw (e : thrown).
Arguments Ok {A} a.
Arguments Throw {A} e.

Definition bind {A B : Type} (r : result A) (k : A -> result B) : result B :=
  match r with
  | Ok a => k a
  | Throw e => Throw e
  end.

(** ToString on a primitive. *)
Definition primToStr (p : prim) : string :=
  match p with
  | PUndefined => "undefined"
  | PNull => "null"
  | PBool true => "true"
  | PBool false => "false"
  | PNum n => printNumber n
  | PNaN => "NaN"
  | PStr s => s
  end.

(** The own property of key [k], if there is one. *)
Fixpoint ownProp (k : string) (props : list (string * value)) : option value :=
  match props with
  | [] => None
  | (k', v) :: rest => if String.eqb k' k then Some v else ownProp k rest
  end.

(** How calling [f] as a method without arguments ends, when [f] can be
    called. *)
Definition called (f : value) : option completion :=
  match f with
  | VFun _ _ c => Some c
  | _ => None
  end.

Definition cannotConvert : thrown :=
  TypeError "Cannot convert object to primitive value".

(** ToString on an object of own properties [props]: its own [toString] if
    that is a function, the inherited one if it has none of its own; when
    that gives no primitive, [valueOf] likewise, the inherited one giving the
    object back; and a [TypeError] when neither gives a primitive. *)
Definition objectToStr (props : list (string * value)) : result string :=
  let viaValueOf :=
    match ownProp "valueOf" props with
    | None => Throw cannotConvert
    | Some f =>
        match called f with
        | Some (Returns p) => Ok (primToStr p)
        | Some (Throws e) => Throw e
        | Some ReturnsObject | None => Throw cannotConvert
        end
    end in
  match ownProp "toString" props with
  | None => Ok "[object Object]"
  | Some f =>
      match called f with
      | Some (Returns p) => Ok (primToStr p)
      | Some (Throws e) => Throw e
      | Some ReturnsObject | None => viaValueOf
      end
  end.

(** ToString, as a template literal and a property key apply it.  Arrays
    join their elements with a comma, printing [null] and [undefined] as the
    empty string; a function prints its source text. *)
Fixpoint toStr (v : value) : result string :=
  match v with
  | VUndefined => Ok "undefined"
  | VNull => Ok "null"
  | VBool true => Ok "true"
  | VBool false => Ok "false"
  | VNum n => Ok (printNumber n)
  | VNaN => Ok "NaN"
  | VStr s => Ok s
  | VFun _ src _ => Ok src
  | VObj _ props => objectToStr props
  | VArr _ es =>
      (fix items (l : list value) : result string :=
         match l with
         | [] => Ok ""
         | e :: rest =>
             bind (if nullish e then Ok "" else toStr e) (fun s =>
             match rest with
             | [] => Ok s
             | _ :: _ => bind (items rest) (fun t => Ok (s ++ "," ++ t))
             end)
         end) es
  end.

(** Strict equality [===]: by value on primitives ([NaN] differs from
    itself), by identity on objects, arrays and functions. *)
Definition strictEq (a b : value) : bool :=
  match a, b with
  | VUndefined, VUndefined => true
  | VNull, VNull => true
  | VBool x, VBool y => Bool.eqb x y
  | VNum x, VNum y => numberOf x =? numberOf y
  | VStr x, VStr y => String.eqb x y
  | VFun r _ _, VFun r' _ _ => Nat.eqb r r'
  | VObj r _, VObj r' _ => Nat.eqb r r'
  | VArr r _, VArr r' _ => Nat.eqb r r'
  | _, _ => false
  end.

(** [a !== b]. *)
Definition strictNe (a b : value) : bool := negb (strictEq a b).

Definition lookupProp (k : string) (props : list (string * value)) : value :=
  match ownProp k props with
  | Some v => v
  | None => VUndefined
  end.

(** [v.k] on a value that is neither [null] nor [undefined], for a key [k]
    that names no member of a prototype: an own data property of an object,
    [length] of an array or a string, and [undefined] otherwise. *)
Definition prop (v : value) (k : string) : value :=
  match v with
  | VObj _ props => lookupProp k props
  | VArr _ es => if String.eqb k "length" then VNum (Z.of_nat (List.length es)) else VUndefined
  | VStr s => if String.eqb k "length" then VNum (Z.of_nat (String.length s)) else VUndefined
  | _ => VUndefined
  end.

(** [v.k] in general: reading a property of [null] or [undefined] throws a
    [TypeError] (the message is the engine's; V8's wording is used). *)
Definition get (v : value) (k : string) : result value :=
  if nullish v
  then Throw (TypeError ("Cannot read properties of "
                         ++ match v with VNull => "null" | _ => "undefined" end
                         ++ " (reading '" ++ k ++ "')"))
  else Ok (prop v k).

(** [e.message] on a caught value: reading it off [null] or [undefined]
    throws, and a bare primitive has none. *)
Definition messageOf (e : thrown) : result (option string) :=
  match e with
  | Error m | TypeError m => Ok (Some m)
  | Bare PNull =>
      Throw (TypeError "Cannot read properties of null (reading 'message')")
  | Bare PUndefined =>
      Throw (TypeError "Cannot read properties of undefined (reading 'message')")
  | Bare _ => Ok None
  end.

(** ToPropertyKey: the key [obj[v]] uses. *)
Definition propKey (v : value) : result string := toStr v.

End Js.

Export Js.

Declare Scope js_scope.
Delimit Scope js_scope with js.
Notation "x <- c1 ;; c2" := (Js.bind c1 (fun x => c2))
  (at level 61, c1 at next level, right associativity) : js_scope.
Notation "c1 ;;; c2" := (Js.bind c1 (fun _ => c2))
  (at level 61, right associativity) : js_scope.

(* ------------------------------------------------------------------ *)
(** ** The extension loader, archive reader and registry *)

Module ExtensionContext.

Local Open Scope js_scope.

(** What running a module body comes to: [module.exports] when the call
    returns; when it throws [e], the text [e.message] prints to in the
    message the [catch] builds ([undefined] for a value that has none); or,
    when [e.message] cannot be read or printed ([e] is [null], say), what the
    [catch] itself then throws. *)
Inductive moduleOutcome : Type :=
| Returned (exports : value)
| Raised (msg : string)
| Faulted (e : thrown).

(** The fields [evalMainJs] checks, in the order it checks them. *)
Inductive tabField : Type :=
| TabId | TabLabel | TabIcon | TabComponent | TabScreens.

Inductive field : Type :=
| FId
| FName
| FTabs
| FTab (i : nat) (tf : tabField).

Definition tabFieldName (tf : tabField) : string :=
  match tf with
  | TabId => "id"
  | TabLabel => "label"
  | TabIcon => "icon"
  | TabComponent => "component"
  | TabScreens => "screens"
  end.

Definition fieldName (f : field) : string :=
  match f with
  | FId => "id"
  | FName => "name"
  | FTabs => "tabs"
  | FTab _ tf => tabFieldName tf
  end.

Definition tabFieldRank (tf : tabField) : nat :=
  match tf with
  | TabId => 0
  | TabLabel => 1
  | TabIcon => 2
  | TabComponent => 3
  | TabScreens => 4
  end.

(** Position of a field in the validation order. *)
Definition fieldRank (f : field) : nat :=
  match f with
  | FId => 0
  | FName => 1
  | FTabs => 2
  | FTab i tf => 3 + 5 * i + tabFieldRank tf
  end.

(** The structural contract of one field of a tab: [id], [label] and [icon]
    are present (truthy), [component] is callable, and [screens], when given,
    is a mapping. *)
Definition tabFieldOk (tf : tabField) (v : value) : bool :=
  match tf with
  | TabId | TabLabel | TabIcon => truthy v
  | TabComponent => jstype_eqb (typeOf v) TFunction
  | TabScreens => negb (truthy v) || jstype_eqb (typeOf v) TObject
  end.

Definition tabProvides (tab : value) (tf : tabField) : bool :=
  negb (nullish tab) && tabFieldOk tf (prop tab (tabFieldName tf)).

Definition tabLacks (tab : value) (tf : tabField) : bool :=
  negb (nullish tab) && negb (tabFieldOk tf (prop tab (tabFieldName tf))).

Definition nonEmptyArray (v : value) : bool :=
  isArray v && negb (Nat.eqb (List.length (elements v)) 0).

(** [provides exp f]: the exported object [exp] satisfies the contract of
    field [f]; [lacks exp f]: the field is there to be checked and fails it
    (it is missing, empty, or of the wrong kind).  An entry of [tabs] that is
    [null] or [undefined] is not a tab: it neither provides nor lacks. *)
Definition provides (exp : value) (f : field) : bool :=
  match f with
  | FId => truthy (prop exp "id")
  | FName => truthy (prop exp "name")
  | FTabs => nonEmptyArray (prop exp "tabs")
  | FTab i tf =>
      match nth_error (elements (prop exp "tabs")) i with
      | Some tab => tabProvides tab tf
      | None => false
      end
  end.

Definition lacks (exp : value) (f : field) : bool :=
  match f with
  | FId => negb (truthy (prop exp "id"))
  | FName => negb (truthy (prop exp "name"))
  | FTabs => negb (nonEmptyArray (prop exp "tabs"))
  | FTab i tf =>
      match nth_error (elements (prop exp "tabs")) i with
      | Some tab => tabLacks tab tf
      | None => false
      end
  end.

(** [absent exp f]: the property is simply not there. *)
Definition absent (exp : value) (f : field) : Prop :=
  match f with
  | FId => prop exp "id" = VUndefined
  | FName => prop exp "name" = VUndefined
  | FTabs => prop exp "tabs" = VUndefined
  | FTab i tf =>
      exists tab, nth_error (elements (prop exp "tabs")) i = Some tab /\
                  nullish tab = false /\
                  prop tab (tabFieldName tf) = VUndefined /\ tf <> TabScreens
  end.

(** Whether ToString gives a string on [v]. *)
Definition prints (v : value) : bool :=
  match toStr v with
  | Ok _ => true
  | Throw _ => false
  end.

(** An exported value that gets past the first check of [evalMainJs]:
    non-null and of type [object]. *)
Definition isObjectLike (v : value) : bool :=
  truthy v && jstype_eqb (typeOf v) TObject.

(** A message names a field when it contains the field's name in quotes. *)
Definition names (msg : string) (f : field) : Prop :=
  includes (quoted (fieldName f)) msg = true.

(** The body of the [for (const tab of exp.tabs)] loop of [evalMainJs]. *)
Definition checkTab (tab : value) : result unit :=
  id <- get tab "id" ;;
  if negb (truthy id) then Throw (Error ("Tab missing " ++ quoted "id")) else
  label <- get tab "label" ;;
  if negb (truthy label)
  then (shown <- toStr id ;;
        Throw (Error ("Tab " ++ quoted shown ++ " missing " ++ quoted "label"))) else
  icon <- get tab "icon" ;;
  if negb (truthy icon)
  then (shown <- toStr id ;;
        Throw (Error ("Tab " ++ quoted shown ++ " missing " ++ quoted "icon"))) else
  component <- get tab "component" ;;
  if negb (jstype_eqb (typeOf component) TFunction)
  then (shown <- toStr id ;;
        Throw (Error ("Tab " ++ quoted shown ++ ": " ++ quoted "component"
                      ++ " must be a function (got " ++ typeName (typeOf component) ++ ")"))) else
  screens <- get tab "screens" ;;
  if truthy screens && negb (jstype_eqb (typeOf screens) TObject)
  then (shown <- toStr id ;;
        Throw (Error ("Tab " ++ quoted shown ++ ": " ++ quoted "screens"
                      ++ " must be an object"))) else
  Ok tt.

Fixpoint checkTabs (tabs : list value) : result unit :=
  match tabs with
  | [] => Ok tt
  | tab :: rest => checkTab tab ;;; checkTabs rest
  end.

(** The validation half of [evalMainJs], on the value of [mod.exports]. *)
Definition validateExports (exp : value) : result value :=
  if negb (truthy exp) || negb (jstype_eqb (typeOf exp) TObject)
  then Throw (Error "main.js must assign module.exports = { id, name, tabs }") else
  id <- get exp "id" ;;
  if negb (truthy id) then Throw (Error ("Missing field: " ++ quoted "id")) else
  name <- get exp "name" ;;
  if negb (truthy name) then Throw (Error ("Missing field: " ++ quoted "name")) else
  tabs <- get exp "tabs" ;;
  if negb (isArray tabs) || Nat.eqb (List.length (elements tabs)) 0
  then Throw (Error ("Missing or empty " ++ quoted "tabs" ++ " array")) else
  checkTabs (elements tabs) ;;;
  Ok exp.

(** A tab is well formed when it is an object all of whose checked fields
    meet the contract. *)
Definition tabWellFormed (tab : value) : Prop :=
  nullish tab = false /\
  forall tf, tabFieldOk tf (prop tab (tabFieldName tf)) = true.

(** The ways [checkTab] can end: the tab is accepted; it is no object, and
    the first read throws; a field fails the contract and the message names
    it; or a field fails the contract and the id of the tab, which the
    message is to show, cannot be printed, so that building the message
    throws. *)
Inductive tabVerdict (tab : value) : result unit -> Prop :=
| TabAccepted :
    tabWellFormed tab -> tabVerdict tab (Ok tt)
| TabNotAnObject m :
    nullish tab = true -> tabVerdict tab (Throw (TypeError m))
| TabRejected tf msg :
    nullish tab = false ->
    tabFieldOk tf (prop tab (tabFieldName tf)) = false ->
    (forall tf', (tabFieldRank tf' < tabFieldRank tf)%nat ->
                 tabFieldOk tf' (prop tab (tabFieldName tf')) = true) ->
    includes (quoted (tabFieldName tf)) msg = true ->
    tabVerdict tab (Throw (Error msg))
| TabUnprintable tf e :
    nullish tab = false ->
    tabFieldOk tf (prop tab (tabFieldName tf)) = false ->
    (forall tf', (tabFieldRank tf' < tabFieldRank tf)%nat ->
                 tabFieldOk tf' (prop tab (tabFieldName tf')) = true) ->
    toStr (prop tab "id") = Throw e ->
    tabVerdict tab (Throw e).

(** The ways [checkTabs] can end: all tabs accepted, or a first offending tab
    at some index, every tab before it being well formed. *)
Inductive tabsVerdict (tabs : list value) : result unit -> Prop :=
| TabsAccepted :
    Forall tabWellFormed tabs -> tabsVerdict tabs (Ok tt)
| TabsStopped i tab e :
    nth_error tabs i = Some tab ->
    (forall j t, (j < i)%nat -> nth_error tabs j = Some t -> tabWellFormed t) ->
    tabVerdict tab (Throw e) ->
    tabsVerdict tabs (Throw e).

(** The ways validation of an object can end: accepted with no field
    lacking; rejected with a message that names the first lacking field;
    stopped by an entry of [tabs] that is not an object; or stopped while
    building the message for a tab whose id cannot be printed. *)
Inductive verdict (exp : value) : result value -> Prop :=
| Accepted :
    (forall f, lacks exp f = false) -> verdict exp (Ok exp)
| RejectedField f msg :
    lacks exp f = true ->
    (forall g, (fieldRank g < fieldRank f)%nat -> provides exp g = true) ->
    names msg f ->
    verdict exp (Throw (Error msg))
| BrokenTab i tab m :
    nth_error (elements (prop exp "tabs")) i = Some tab ->
    nullish tab = true ->
    (forall g, (fieldRank g < fieldRank (FTab i TabId))%nat -> provides exp g = true) ->
    verdict exp (Throw (TypeError m))
| UnprintableTab i tab tf e :
    nth_error (elements (prop exp "tabs")) i = Some tab ->
    lacks exp (FTab i tf) = true ->
    (forall g, (fieldRank g < fieldRank (FTab i tf))%nat -> provides exp g = true) ->
    toStr (prop tab "id") = Throw e ->
    verdict exp (Throw e).

Section Loader.

(** The engine: [new Function('module', 'exports', ...keys, code)] applied to
    a fresh [mod] and the capability table.  The host relies on it for one
    thing, the outcome of the call. *)
Variable runModule : string -> moduleOutcome.

Definition evalMainJs (code : string) : result value :=
  match runModule code with
  | Raised m => Throw (Error ("JS error in main.js: " ++ m))
  | Faulted e => Throw e
  | Returned exp => validateExports exp
  end.

End Loader.

(** *** Archive reader *)

Definition buffer : Type := list Byte.byte.

(** A member of a parsed archive, with the two views [async('string')] and
    [async('base64')] give of its content. *)
Record zipEntry : Type := {
  entryName : string;
  asText : string;
  asBase64 : string
}.

(** [zip.files], in enumeration order. *)
Definition zipArchive : Type := list zipEntry.

(** What [JSZip.loadAsync] settles to. *)
Inductive zipOutcome : Type :=
| Parsed (zip : zipArchive)
| Rejected (msg : string).

(** [zip.file(name)]: the member of that name, or [null]. *)
Definition zipFile (zip : zipArchive) (name : string) : option zipEntry :=
  find (fun e => String.eqb (entryName e) name) zip.

Definition parsedLhub : Type := (value * string * option string)%type.

(** *** Registry state *)

(** [PersistedExt]. *)
Record persistedExt : Type := {
  p_mainJs : string;
  p_iconUri : option string;
  p_installedAt : Z
}.

(** [Record<string, PersistedExt>]: the own properties of the object, in
    enumeration order (the order of array-index-like keys, which JavaScript
    lists first, is not modelled). *)
Definition storedMap : Type := list (string * persistedExt).

Fixpoint objGet (k : string) (m : storedMap) : option persistedExt :=
  match m with
  | [] => None
  | (k', v) :: rest => if String.eqb k' k then Some v else objGet k rest
  end.

(** [m[k] = v] for a record [v]: an own property is overwritten in place; a
    new one is added last, but for the key [__proto__], whose assignment sets
    the prototype of [m] and adds no property. *)
Fixpoint objSet (k : string) (v : persistedExt) (m : storedMap) : storedMap :=
  match m with
  | [] => if String.eqb k "__proto__" then [] else [(k, v)]
  | (k', v') :: rest =>
      if String.eqb k' k then (k', v) :: rest else (k', v') :: objSet k v rest
  end.

(** [delete m[k]]. *)
Definition objDelete (k : string) (m : storedMap) : storedMap :=
  filter (fun kv => negb (String.eqb (fst kv) k)) m.

(** [InstalledExtension]. *)
Record installedExtension : Type := {
  manifest : value;
  iconUri : option string;
  installedAt : Z
}.

(** What [JSON.parse] makes of the item AsyncStorage holds under
    [STORAGE_KEY]: the map of records [storageSave] wrote, or [null] for the
    text [null].  (A text that does not parse behaves as a read that fails;
    other JSON values are not modelled.) *)
Inductive storedValue : Type :=
| StoredMap (m : storedMap)
| StoredNull.

(** The state the provider owns: the [extensions] React state and the item
    AsyncStorage holds under [STORAGE_KEY] ([None] until first written). *)
Record host : Type := {
  extensions : list installedExtension;
  storageItem : option storedValue
}.


(** How one AsyncStorage call settles. *)
Inductive io : Type :=
| IoOk
| IoFail (msg : string).

(** Host code: it reads and writes the state, and may throw; what it did to
    the state before throwing stays done. *)
Definition action (A : Type) : Type := host -> result A * host.

Definition ret {A : Type} (a : A) : action A := fun h => (Ok a, h).

Definition raise {A : Type} (e : thrown) : action A := fun h => (Throw e, h).

Definition andThen {A B : Type} (c : action A) (k : A -> action B) : action B :=
  fun h =>
    match c h with
    | (Ok a, h') => k a h'
    | (Throw e, h') => (Throw e, h')
    end.

(** [try { c } catch (e) { handler(e) }]. *)
Definition tryCatch {A : Type} (c : action A) (handler : thrown -> action A) : action A :=
  fun h =>
    match c h with
    | (Ok a, h') => (Ok a, h')
    | (Throw e, h') => handler e h'
    end.

Definition lift {A : Type} (r : result A) : action A := fun h => (r, h).

Declare Scope action_scope.
Delimit Scope action_scope with action.
Notation "x <~ c1 ;; c2" := (andThen c1 (fun x => c2))
  (at level 61, c1 at next level, right associativity) : action_scope.
Notation "c1 ~> c2" := (andThen c1 (fun _ => c2))
  (at level 61, right associativity) : action_scope.
Local Open Scope action_scope.

(** [setExtensions(updater)]. *)
Definition setExtensions (f : list installedExtension -> list installedExtension)
  : action unit :=
  fun h => (Ok tt, {| extensions := f (extensions h); storageItem := storageItem h |}).

(** [AsyncStorage.getItem(STORAGE_KEY)], parsed. *)
Definition getItem (o : io) : action (option storedValue) :=
  fun h =>
    match o with
    | IoOk => (Ok (storageItem h), h)
    | IoFail m => (Throw (Error m), h)
    end.

(** [AsyncStorage.setItem(STORAGE_KEY, JSON.stringify(map))]. *)
Definition setItem (o : io) (map : storedMap) : action unit :=
  fun h =>
    match o with
    | IoOk => (Ok tt, {| extensions := extensions h; storageItem := Some (StoredMap map) |})
    | IoFail m => (Throw (Error m), h)
    end.

Definition storageSave (o : io) (map : storedMap) : action unit :=
  tryCatch (setItem o map) (fun _ => ret tt).

Definition storageLoad (o : io) : action storedValue :=
  tryCatch
    (raw <~ getItem o ;;
     ret (match raw with Some v => v | None => StoredMap [] end))
    (fun _ => ret (StoredMap [])).

(** [stored[id] = record]: on [null] the assignment throws before the key is
    converted (the engine's message, which goes on to quote the key, is cut
    short here); the key is the id converted, which may throw. *)
Definition assignRecord (stored : storedValue) (id : value) (record : persistedExt)
  : result storedMap :=
  match stored with
  | StoredNull => Throw (TypeError "Cannot set properties of null")
  | StoredMap m => (k <- propKey id ;; Ok (objSet k record m))%js
  end.

(** [delete stored[id]]. *)
Definition deleteRecord (stored : storedValue) (id : value) : result storedMap :=
  match stored with
  | StoredNull => Throw (TypeError "Cannot convert undefined or null to object")
  | StoredMap m => (k <- propKey id ;; Ok (objDelete k m))%js
  end.

(** [Object.keys(stored)] and [Object.entries(stored)]. *)
Definition entriesOf (stored : storedValue) : result storedMap :=
  match stored with
  | StoredNull => Throw (TypeError "Cannot convert undefined or null to object")
  | StoredMap m => Ok m
  end.

(** A [File] picked in the browser; [fileBytes] is [None] when the
    [FileReader] fails on it. *)
Record file : Type := {
  fileName : string;
  fileBytes : option buffer
}.

(** [{ ok, error? }]; [error] is [None] for an [e.message] that is
    [undefined]. *)
Record report : Type := {
  ok : bool;
  error : option string
}.

(** The [catch] of both installs: [{ ok: false, error: e.message }]. *)
Definition reportFailure (e : thrown) : action report :=
  msg <~ lift (messageOf e) ;;
  ret {| ok := false; error := msg |}.

Section Registry.

Variable runModule : string -> moduleOutcome.

(** [JSZip.loadAsync]. *)
Variable loadAsync : buffer -> zipOutcome.

(** Whether [window.JSZip] is there or can be fetched from the CDN. *)
Variable jszipLoads : bool.

Definition parseZipBuffer (buf : buffer) : result parsedLhub :=
  (zip <- match loadAsync buf with
          | Parsed z => Ok z
          | Rejected m => Throw (Error ("Not a valid zip/lhub file: " ++ m))
          end ;;
   let files := map entryName zip in
   match zipFile zip "main.js" with
   | None => Throw (Error ("main.js not found. Found: " ++ join ", " files))
   | Some mainFile =>
       let mainJs := asText mainFile in
       let iconUri :=
         match zipFile zip "icon.png" with
         | Some iconFile => Some ("data:image/png;base64," ++ asBase64 iconFile)
         | None => None
         end in
       manifest <- evalMainJs runModule mainJs ;;
       Ok (manifest, mainJs, iconUri)
   end)%js.

Definition getJSZip : result unit :=
  if jszipLoads then Ok tt else Throw (Error "Failed to load JSZip from CDN").

Definition readAsArrayBuffer (f : file) : result buffer :=
  match fileBytes f with
  | Some buf => Ok buf
  | None => Throw (Error ("FileReader failed on " ++ quoted (fileName f)))
  end.

Definition parseLhubWeb (f : file) : result parsedLhub :=
  (getJSZip ;;; buf <- readAsArrayBuffer f ;; parseZipBuffer buf)%js.

(** The [id] a stored extension is compared by: [e.manifest.id]. *)
Definition extId (e : installedExtension) : value := prop (manifest e) "id".

(** What both installs do with a parsed archive: upsert the collection, then
    write the record through to the store. *)
Definition register (now : Z) (rd wr : io) (parsed : parsedLhub) : action report :=
  let '(manifest, mainJs, iconUri) := parsed in
  let installed := {| manifest := manifest; iconUri := iconUri; installedAt := now |} in
  setExtensions (fun prev =>
    (filter (fun e => strictNe (extId e) (prop manifest "id")) prev ++ [installed])%list) ~>
  stored <~ storageLoad rd ;;
  stored <~ lift (assignRecord stored (prop manifest "id")
                    {| p_mainJs := mainJs; p_iconUri := iconUri;
                       p_installedAt := installedAt installed |}) ;;
  storageSave wr stored ~>
  ret {| ok := true; error := None |}.

(** [installFromFile]; [now] is [Date.now()], [rd] and [wr] are how the read
    and the write of the durable store settle. *)
Definition installFromFile (now : Z) (rd wr : io) (f : file) : action report :=
  tryCatch
    (parsed <~ lift (parseLhubWeb f) ;;
     register now rd wr parsed)
    reportFailure.

(** [uninstallExtension]. *)
Definition uninstallExtension (rd wr : io) (id : value) : action unit :=
  setExtensions (fun prev => filter (fun e => strictNe (extId e) id) prev) ~>
  stored <~ storageLoad rd ;;
  stored <~ lift (deleteRecord stored id) ;;
  storageSave wr stored.

(** The loop of the rehydration effect: each record is evaluated inside its
    own [try]; a failure is logged and the loop goes on. *)
Fixpoint rehydrateEntries (entries : list (string * persistedExt))
  (rehydrated : list installedExtension) : action (list installedExtension) :=
  match entries with
  | [] => ret rehydrated
  | (id, p) :: rest =>
      rehydrated' <~
        tryCatch
          (manifest <~ lift (evalMainJs runModule (p_mainJs p)) ;;
           ret (rehydrated ++ [{| manifest := manifest; iconUri := p_iconUri p;
                                  installedAt := p_installedAt p |}])%list)
          (fun _ => ret rehydrated) ;;
      rehydrateEntries rest rehydrated'
  end.

(** The rehydration effect of [ExtensionProvider]. *)
Definition rehydrateAll (rd : io) : action unit :=
  stored <~ storageLoad rd ;;
  entries <~ lift (entriesOf stored) ;;
  let ids := map fst entries in
  if Nat.eqb (List.length ids) 0 then ret tt else
  rehydrated <~ rehydrateEntries entries [] ;;
  if negb (Nat.eqb (List.length rehydrated) 0)
  then setExtensions (fun _ => rehydrated)
  else ret tt.


End Registry.

(** The records the durable store holds. *)
Definition persisted (h : host) : storedMap :=
  match storageItem h with
  | Some (StoredMap m) => m
  | _ => []
  end.

(** What [storageLoad] resolves to when the read settles as [rd]. *)
Definition loadedValue (rd : io) (h : host) : storedValue :=
  match rd with
  | IoOk => match storageItem h with
            | Some v => v
            | None => StoredMap []
            end
  | IoFail _ => StoredMap []
  end.




End ExtensionContext.

(* ------------------------------------------------------------------ *)
(** ** The per-tab navigation stack *)

Module ExtensionNavigator.

(** [StackEntry].  The name is what the screen passed to [push]: a string
    by the declared type, any value in fact. *)
Record stackEntry : Type := {
  screenName : value;
  params : value
}.

(** The entry the stack starts from and [popToRoot] resets to. *)
Definition rootEntry : stackEntry :=
  {| screenName := VStr "__root__"; params := VObj 0 [] |}.

Definition initialStack : list stackEntry := [rootEntry].

(** The three updaters the navigation object hands to [setStack]. *)
Inductive updater : Type :=
| Append (e : stackEntry)
| DropLast
| ResetToRoot.

(** [prev => [...prev, e]], [prev => prev.slice(0, -1)], and the constant
    [[root]]. *)
Definition applyUpdater (u : updater) (prev : list stackEntry) : list stackEntry :=
  match u with
  | Append e => (prev ++ [e])%list
  | DropLast => removelast prev
  | ResetToRoot => [rootEntry]
  end.

(** One mounted navigator: the [stack] state (which is also what the closures
    of the current render see, a re-render following every [setStack]), and
    the midpoint callbacks of the transitions started and not yet at their
    midpoint, oldest first. *)
Record navigator : Type := {
  stack : list stackEntry;
  pending : list updater
}.

Definition initial : navigator := {| stack := initialStack; pending := [] |}.

(** [animateTransition(direction, onMid)]: the fade-out starts, and [onMid]
    runs when it completes, or is cut short by the next transition. *)
Definition animateTransition (onMid : updater) (n : navigator) : navigator :=
  {| stack := stack n; pending := (pending n ++ [onMid])%list |}.

(** The calls of [ExtNavigation]. *)
Inductive call : Type :=
| Push (name : value) (args : value)
| Pop
| PopToRoot.

(** [navigation.push], [navigation.pop] and [navigation.popToRoot] of the
    navigation object built by the render that saw the stack [seen]: the
    guard of [pop] reads that stack. *)
Definition navigateSeeing (seen : list stackEntry) (c : call) (n : navigator)
  : navigator :=
  match c with
  | Push name args =>
      animateTransition
        (Append {| screenName := name;
                   params := if nullish args then VObj 0 [] else args |}) n
  | Pop =>
      if Nat.leb (List.length seen) 1 then n
      else animateTransition DropLast n
  | PopToRoot => animateTransition ResetToRoot n
  end.

(** A call through the navigation object of the latest render, the one the
    screen on display was handed. *)
Definition navigate (c : call) (n : navigator) : navigator :=
  navigateSeeing (stack n) c n.

(** The midpoint of the oldest transition in flight: its [onMid] runs. *)
Definition midpoint (n : navigator) : navigator :=
  match pending n with
  | [] => n
  | u :: rest => {| stack := applyUpdater u (stack n); pending := rest |}
  end.

(** What happens to a navigator: a call through the navigation object of
    the latest render, a call through one kept from an earlier render (which
    saw the stack [seen]), or a midpoint. *)
Inductive event : Type :=
| Call (c : call)
| CallKept (seen : list stackEntry) (c : call)
| Midpoint.

Definition react (n : navigator) (e : event) : navigator :=
  match e with
  | Call c => navigate c n
  | CallKept seen c => navigateSeeing seen c n
  | Midpoint => midpoint n
  end.

Definition run (es : list event) (n : navigator) : navigator :=
  fold_left react es n.

(** A transition carried through before the next call is made. *)
Definition transition (n : navigator) (c : call) : navigator :=
  midpoint (navigate c n).

Definition runSequential (cs : list call) (n : navigator) : navigator :=
  fold_left transition cs n.

(** [stack[stack.length - 1]]. *)
Definition current (n : navigator) : option stackEntry :=
  match stack n with
  | [] => None
  | e :: rest => Some (last rest e)
  end.

(** [navigation.getParams]. *)
Definition getParams (n : navigator) : result value :=
  match current n with
  | Some e => Ok (params e)
  | None => Throw (TypeError "Cannot read properties of undefined (reading 'params')")
  end.

(** What a render picks to put on screen: the root component of the tab; the
    truthy value [tab.screens] holds under the key of the name, as an own
    property; a truthy value found under that key on a prototype of
    [tab.screens]; or the placeholder.  Mounting what was picked is React's
    work and not part of this. *)
Inductive screen : Type :=
| RootComponent
| SubScreen (key : string) (component : value)
| Inherited (key : string)
| NotFound (name : value).

Section Render.

(** Whether [obj[key]] is truthy for a key that is no own property of
    [obj]: the members of its prototypes ([constructor], [toString], ...), as
    the engine at hand has them. *)
Variable inherits : value -> string -> bool.

(** The element of an array under the key [key], when the key is the
    canonical form of one of its indices. *)
Fixpoint elementAt (key : string) (i : nat) (es : list value) : option value :=
  match es with
  | [] => None
  | e :: rest =>
      if String.eqb (printNumber (Z.of_nat i)) key then Some e
      else elementAt key (S i) rest
  end.

(** The own property of [screens] under [key], for the values validation
    lets through as [tab.screens]: objects and arrays. *)
Definition ownMember (screens : value) (key : string) : option value :=
  match screens with
  | VObj _ props => ownProp key props
  | VArr _ es =>
      if String.eqb key "length" then Some (VNum (Z.of_nat (List.length es)))
      else elementAt key 0 es
  | _ => None
  end.

(** [tab.screens[name]] for the key the name converts to. *)
Definition lookupScreen (screens : value) (key : string) (name : value) : screen :=
  match ownMember screens key with
  | Some v => if truthy v then SubScreen key v else NotFound name
  | None => if inherits screens key then Inherited key else NotFound name
  end.

(** Which component a render of the navigator of [tab] picks:
    [current.screenName === '__root__'], then
    [tab.screens && tab.screens[current.screenName]]. *)
Definition render (tab : value) (n : navigator) : result screen :=
  match current n with
  | None => Throw (TypeError "Cannot read properties of undefined (reading 'screenName')")
  | Some cur =>
      if strictEq (screenName cur) (VStr "__root__") then Ok RootComponent
      else if negb (truthy (prop tab "screens")) then Ok (NotFound (screenName cur))
      else (key <- propKey (screenName cur) ;;
            Ok (lookupScreen (prop tab "screens") key (screenName cur)))%js
  end.

End Render.

(** What holds of the stack between transitions. *)
Definition wellRooted (n : navigator) : Prop :=
  exists rest, stack n = rootEntry :: rest.

End ExtensionNavigator.

(* ------------------------------------------------------------------ *)
(** ** The media control bridge *)

Module MediaPlayerContext.

(** A function handed over by an extension, known by the name it is called
    under in traces. *)
Definition callback : Type := string.

(** Numbers are IEEE 754 doubles. *)
Definition number : Type := float.

(** [Math.min] and [Math.max] of two numbers: [NaN] when either is, and the
    negative zero below the positive one. *)
Definition jsMin (a b : number) : number :=
  if is_nan a || is_nan b then nan
  else if (a <? b)%float then a
  else if (b <? a)%float then b
  else if get_sign a then a else b.

Definition jsMax (a b : number) : number :=
  if is_nan a || is_nan b then nan
  else if (a <? b)%float then b
  else if (b <? a)%float then a
  else if get_sign a then b else a.

(** ToBoolean on a number: [0], [-0] and [NaN] are falsy. *)
Definition truthyNumber (x : number) : bool := negb (is_nan x || is_zero x).

(** [MusicNotificationInfo]. *)
Record musicNotificationInfo : Type := {
  title : string;
  artist : string;
  artwork : option string;
  album : option string;
  isPlaying : bool;
  duration : number;
  position : number
}.

(** [MusicNotificationHandlers]. *)
Record musicNotificationHandlers : Type := {
  onPlay : option callback;
  onPause : option callback;
  onNext : option callback;
  onPrev : option callback;
  onSeek : option callback;
  onStop : option callback
}.

(** The object [{}]. *)
Definition noHandlers : musicNotificationHandlers :=
  {| onPlay := None; onPause := None; onNext := None;
     onPrev := None; onSeek := None; onStop := None |}.

Record mediaMetadata : Type := {
  md_title : string;
  md_artist : string;
  md_album : string;
  md_artwork : list string
}.

Record positionState : Type := {
  ps_duration : number;
  ps_playbackRate : number;
  ps_position : number
}.

(** The actions of the Media Session the host touches. *)
Inductive mediaAction : Type :=
| ActPlay | ActPause | ActNextTrack | ActPreviousTrack | ActSeekTo.

Definition mediaAction_eqb (a b : mediaAction) : bool :=
  match a, b with
  | ActPlay, ActPlay | ActPause, ActPause | ActNextTrack, ActNextTrack
  | ActPreviousTrack, ActPreviousTrack | ActSeekTo, ActSeekTo => true
  | _, _ => false
  end.

(** [navigator.mediaSession]: its metadata, playback state, position state
    and, per action, the extension function the registered handler calls. *)
Record mediaSession : Type := {
  metadata : option mediaMetadata;
  playbackState : string;
  actionHandler : mediaAction -> option callback;
  position_state : option positionState
}.

Definition freshMediaSession : mediaSession :=
  {| metadata := None; playbackState := "none";
     actionHandler := fun _ => None; position_state := None |}.

(** [ms.setActionHandler(a, h)]. *)
Definition setActionHandler (a : mediaAction) (h : option callback) (ms : mediaSession)
  : mediaSession :=
  {| metadata := metadata ms; playbackState := playbackState ms;
     actionHandler := fun b => if mediaAction_eqb b a then h else actionHandler ms b;
     position_state := position_state ms |}.

(** [if (f) ms.setActionHandler(a, ...)]. *)
Definition whenGiven (f : option callback) (a : mediaAction) (ms : mediaSession)
  : mediaSession :=
  match f with
  | Some fn => setActionHandler a (Some fn) ms
  | None => ms
  end.

(** [try { ms.setPositionState(st) } catch (_) {}]: the platform rejects a
    duration that is negative or [NaN], and a position that is not finite
    or lies outside [0, duration]. *)
Definition trySetPositionState (st : positionState) (ms : mediaSession) : mediaSession :=
  if (0 <=? ps_duration st)%float && is_finite (ps_position st)
     && (0 <=? ps_position st)%float
     && (ps_position st <=? ps_duration st)%float
  then {| metadata := metadata ms; playbackState := playbackState ms;
          actionHandler := actionHandler ms; position_state := Some st |}
  else ms.

(** [x || 0] on a number. *)
Definition orZero (x : number) : number := if truthyNumber x then x else 0%float.

(** [setupWebMediaSession(info, h)] on the session, when the browser has
    one. *)
Definition setupWebMediaSession (info : musicNotificationInfo)
  (h : musicNotificationHandlers) (ms : option mediaSession) : option mediaSession :=
  match ms with
  | None => None
  | Some ms =>
      let ms := {| metadata :=
                     Some {| md_title := title info; md_artist := artist info;
                             md_album := match album info with Some a => a | None => "" end;
                             md_artwork := match artwork info with
                                           | Some src => if String.eqb src "" then [] else [src]
                                           | None => []
                                           end |};
                   playbackState := if isPlaying info then "playing" else "paused";
                   actionHandler := actionHandler ms;
                   position_state := position_state ms |} in
      let ms := whenGiven (onPlay h) ActPlay ms in
      let ms := whenGiven (onPause h) ActPause ms in
      let ms := whenGiven (onNext h) ActNextTrack ms in
      let ms := whenGiven (onPrev h) ActPreviousTrack ms in
      let ms := whenGiven (onSeek h) ActSeekTo ms in
      Some (trySetPositionState
              {| ps_duration := orZero (duration info); ps_playbackRate := 1%float;
                 ps_position := jsMin (position info) (orZero (duration info)) |} ms)
  end.

(** [clearWebMediaSession()]. *)
Definition clearWebMediaSession (ms : option mediaSession) : option mediaSession :=
  match ms with
  | None => None
  | Some ms =>
      Some {| metadata := None; playbackState := "none";
              actionHandler := fun _ => None;
              position_state := position_state ms |}
  end.

(** The track the native notification shows. *)
Record track : Type := {
  tr_title : string;
  tr_artist : string;
  tr_album : string;
  tr_artwork : string;
  tr_duration : number
}.

(** The native side: whether the audio mode was set, and the queue of
    react-native-track-player ([None] when the package is not there). *)
Record nativeNotification : Type := {
  audioModeSet : bool;
  queue : option (list track)
}.

(** [setupNativeMediaNotification(info, h)]; [h] is not used by it. *)
Definition setupNativeMediaNotification (info : musicNotificationInfo)
  (h : musicNotificationHandlers) (nn : nativeNotification) : nativeNotification :=
  let t := {| tr_title := title info; tr_artist := artist info;
              tr_album := match album info with Some a => a | None => "" end;
              tr_artwork := match artwork info with Some a => a | None => "" end;
              tr_duration := duration info |} in
  {| audioModeSet := true;
     queue := match queue nn with
              | None => None
              | Some [] => Some [t]
              | Some (_ :: rest) => Some (t :: rest)
              end |}.

(** [clearNativeMediaNotification()]. *)
Definition clearNativeMediaNotification (nn : nativeNotification) : nativeNotification :=
  {| audioModeSet := audioModeSet nn;
     queue := match queue nn with None => None | Some _ => Some [] end |}.

(** [Platform.OS === 'web'], or not. *)
Inductive platformOS : Type :=
| Web
| NativeOS.

(** [VideoPlayerOptions]. *)
Record videoPlayerOptions : Type := {
  uri : string;
  v_title : option string;
  startPosition : option number;
  loop : option bool;
  headers : option (list (string * string));
  onEnd : option callback;
  onClose : option callback;
  renderControls : option callback
}.

(** The state of [MediaPlayerProvider] and of the platform surface it
    mirrors into. *)
Record provider : Type := {
  notifInfo : option musicNotificationInfo;
  handlersRef : musicNotificationHandlers;
  videoOptions : option videoPlayerOptions;
  os : platformOS;
  webSession : option mediaSession;
  native : nativeNotification
}.

Definition mountProvider (o : platformOS) (ms : option mediaSession)
  (nn : nativeNotification) : provider :=
  {| notifInfo := None; handlersRef := noHandlers; videoOptions := None;
     os := o; webSession := ms; native := nn |}.

(** Synchronise the platform surface with [info] and [h]: the two branches on
    [Platform.OS]. *)
Definition synchronise (info : musicNotificationInfo) (h : musicNotificationHandlers)
  (p : provider) : provider :=
  match os p with
  | Web =>
      {| notifInfo := notifInfo p; handlersRef := handlersRef p;
         videoOptions := videoOptions p; os := os p;
         webSession := setupWebMediaSession info h (webSession p);
         native := native p |}
  | NativeOS =>
      {| notifInfo := notifInfo p; handlersRef := handlersRef p;
         videoOptions := videoOptions p; os := os p;
         webSession := webSession p;
         native := setupNativeMediaNotification info h (native p) |}
  end.

(** [musicUpdate]: [setNotifInfo(i)], then the effect on [notifInfo]. *)
Definition musicUpdate (i : musicNotificationInfo) (p : provider) : provider :=
  let p := {| notifInfo := Some i; handlersRef := handlersRef p;
              videoOptions := videoOptions p; os := os p;
              webSession := webSession p; native := native p |} in
  synchronise i (handlersRef p) p.

(** [musicSetHandlers] as created by the render that saw [seen] as
    [notifInfo]. *)
Definition musicSetHandlersSeeing (seen : option musicNotificationInfo)
  (h : musicNotificationHandlers) (p : provider) : provider :=
  let p := {| notifInfo := notifInfo p; handlersRef := h;
              videoOptions := videoOptions p; os := os p;
              webSession := webSession p; native := native p |} in
  match seen with
  | Some info => synchronise info h p
  | None => p
  end.

(** [musicSetHandlers] of the current render: the callback is re-created
    whenever [notifInfo] changes. *)
Definition musicSetHandlers (h : musicNotificationHandlers) (p : provider) : provider :=
  musicSetHandlersSeeing (notifInfo p) h p.

(** [musicClear]. *)
Definition musicClear (p : provider) : provider :=
  match os p with
  | Web =>
      {| notifInfo := None; handlersRef := handlersRef p;
         videoOptions := videoOptions p; os := os p;
         webSession := clearWebMediaSession (webSession p); native := native p |}
  | NativeOS =>
      {| notifInfo := None; handlersRef := handlersRef p;
         videoOptions := videoOptions p; os := os p;
         webSession := webSession p;
         native := clearNativeMediaNotification (native p) |}
  end.

(** The extension function of a handler set that an action calls. *)
Definition handlerFor (h : musicNotificationHandlers) (a : mediaAction) : option callback :=
  match a with
  | ActPlay => onPlay h
  | ActPause => onPause h
  | ActNextTrack => onNext h
  | ActPreviousTrack => onPrev h
  | ActSeekTo => onSeek h
  end.

(** The handler the Media Session of a provider has for an action. *)
Definition registered (p : provider) (a : mediaAction) : option callback :=
  match webSession p with
  | Some ms => actionHandler ms a
  | None => None
  end.

(** A call the platform makes into extension code. *)
Inductive invocation : Type :=
| Invoke (f : callback)
| InvokeWith (f : callback) (seekTime : number).

(** The user presses a button of the lock-screen surface.  On the web the
    handler registered for the action runs; the native side has no listener
    for the remote events. *)
Definition platformPress (a : mediaAction) (seekTime : number) (p : provider)
  : list invocation :=
  match os p with
  | Web =>
      match webSession p with
      | Some ms =>
          match actionHandler ms a with
          | Some f =>
              match a with
              | ActSeekTo => [InvokeWith f seekTime]
              | _ => [Invoke f]
              end
          | None => []
          end
      | None => []
      end
  | NativeOS => []
  end.

(** [videoOpen] and [videoClose]. *)
Definition videoOpen (o : videoPlayerOptions) (p : provider) : provider :=
  {| notifInfo := notifInfo p; handlersRef := handlersRef p;
     videoOptions := Some o; os := os p;
     webSession := webSession p; native := native p |}.

Definition videoClose (p : provider) : provider :=
  {| notifInfo := notifInfo p; handlersRef := handlersRef p;
     videoOptions := None; os := os p;
     webSession := webSession p; native := native p |}.

(** [isOpen: videoOptions !== null]. *)
Definition isOpen (p : provider) : bool :=
  match videoOptions p with
  | Some _ => true
  | None => false
  end.

(** The [LhubVideoPlayer] elements the provider renders, each with its
    [options]. *)
Definition liveSessions (p : provider) : list videoPlayerOptions :=
  match videoOptions p with
  | Some o => [o]
  | None => []
  end.

End MediaPlayerContext.

(* ------------------------------------------------------------------ *)
(** ** The video engine wrapper and its control surface *)

Module LhubVideoPlayer.

Import MediaPlayerContext.

(** What the wrapper asks of the playback engine through [videoRef]. *)
Inductive engineCommand : Type :=
| PlayAsync
| PauseAsync
| ReplayAsync
| SetPositionAsync (millis : number).

(** A playback status object of the engine; an absent field is [None]. *)
Record status : Type := {
  isLoaded : bool;
  st_error : option string;
  st_isPlaying : option bool;
  durationMillis : option number;
  positionMillis : option number;
  st_isBuffering : option bool;
  playableDurationMillis : option number;
  didJustFinish : bool
}.

(** The state of one [LhubVideoPlayer]: the React state, the mounted engine
    element with the commands it has received ([None] while no element is
    mounted), and the extension callbacks called so far. *)
Record player : Type := {
  options : videoPlayerOptions;
  error : string;
  isPlaying : bool;
  duration : number;
  position : number;
  buffered : number;
  isBuffering : bool;
  isEnded : bool;
  videoRef : option (list engineCommand);
  called : list callback
}.

Definition mount (o : videoPlayerOptions) (element : option (list engineCommand)) : player :=
  {| options := o; error := ""; isPlaying := false; duration := 0%float;
     position := 0%float; buffered := 0%float; isBuffering := true; isEnded := false;
     videoRef := element; called := [] |}.

(** [videoRef.current?.cmd()]. *)
Definition issue (cmd : engineCommand) (pl : player) : player :=
  {| options := options pl; error := error pl; isPlaying := isPlaying pl;
     duration := duration pl; position := position pl; buffered := buffered pl;
     isBuffering := isBuffering pl; isEnded := isEnded pl;
     videoRef := match videoRef pl with
                 | Some log => Some (log ++ [cmd])%list
                 | None => None
                 end;
     called := called pl |}.

Definition setIsEnded (b : bool) (pl : player) : player :=
  {| options := options pl; error := error pl; isPlaying := isPlaying pl;
     duration := duration pl; position := position pl; buffered := buffered pl;
     isBuffering := isBuffering pl; isEnded := b;
     videoRef := videoRef pl; called := called pl |}.

Definition invoke (f : option callback) (pl : player) : player :=
  match f with
  | None => pl
  | Some fn =>
      {| options := options pl; error := error pl; isPlaying := isPlaying pl;
         duration := duration pl; position := position pl; buffered := buffered pl;
         isBuffering := isBuffering pl; isEnded := isEnded pl;
         videoRef := videoRef pl; called := (called pl ++ [fn])%list |}
  end.

Definition orElse {A : Type} (x : option A) (d : A) : A :=
  match x with
  | Some a => a
  | None => d
  end.

(** [onStatus]. *)
Definition onStatus (st : status) (pl : player) : player :=
  if negb (isLoaded st) then
    match st_error st with
    | Some e =>
        if String.eqb e "" then pl
        else {| options := options pl; error := e; isPlaying := isPlaying pl;
                duration := duration pl; position := position pl;
                buffered := buffered pl; isBuffering := isBuffering pl;
                isEnded := isEnded pl; videoRef := videoRef pl; called := called pl |}
    | None => pl
    end
  else
    let pl := {| options := options pl; error := error pl;
                 isPlaying := orElse (st_isPlaying st) false;
                 duration := (orElse (durationMillis st) 0 / 1000)%float;
                 position := (orElse (positionMillis st) 0 / 1000)%float;
                 buffered :=
                   match playableDurationMillis st with
                   | Some b => if truthyNumber b then (b / 1000)%float else buffered pl
                   | None => buffered pl
                   end;
                 isBuffering := orElse (st_isBuffering st) false;
                 isEnded := isEnded pl; videoRef := videoRef pl; called := called pl |} in
    if didJustFinish st && negb (orElse (loop (options pl)) false)
    then invoke (onEnd (options pl)) (setIsEnded true pl)
    else pl.

(** The actions of [VideoControlsAPI], as built by the render that sees the
    state [pl]. *)
Definition play (pl : player) : player := issue PlayAsync pl.

Definition pause (pl : player) : player := issue PauseAsync pl.

Definition togglePlay (pl : player) : player :=
  if isEnded pl then setIsEnded false (issue ReplayAsync pl)
  else if isPlaying pl then issue PauseAsync pl
  else issue PlayAsync pl.

Definition seek (s : number) (pl : player) : player :=
  issue (SetPositionAsync (s * 1000)%float) pl.

(** The target of [skip(s)]: [Math.max(0, Math.min(duration, position + s))]. *)
Definition skipTarget (pl : player) (s : number) : number :=
  jsMax 0%float (jsMin (duration pl) (position pl + s)%float).

Definition skip (s : number) (pl : player) : player :=
  let t := skipTarget pl s in
  issue (SetPositionAsync (t * 1000)%float) pl.


(** [handleClose]: the caller's [onClose], then the provider's. *)
Definition handleClose (pl : player) (p : provider) : player * provider :=
  (invoke (onClose (options pl)) pl, videoClose p).

End LhubVideoPlayer.

(* ------------------------------------------------------------------ *)
(** ** The media handles of the capability table *)

Module SandboxAPI.

Import MediaPlayerContext.

(** What [useLhubMediaPlayer()] returns: the default value of the context,
    or the value a provider built in the render that had [current] as
    [notifInfo] and [isOpenNow] as [videoOptions !== null]. *)
Inductive mediaPlayerValue : Type :=
| DefaultValue
| ProviderValue (current : option musicNotificationInfo) (isOpenNow : bool).

(** The process-wide slot [_globalMediaPlayerRef], and the bridge behind
    it. *)
Record world : Type := {
  globalMediaPlayerRef : option mediaPlayerValue;
  bridge : provider
}.

(** The world before any provider has put itself in the slot. *)
Definition unmounted (p : provider) : world :=
  {| globalMediaPlayerRef := None; bridge := p |}.

(** The value a render of the provider puts in the context. *)
Definition contextValue (p : provider) : mediaPlayerValue :=
  ProviderValue (notifInfo p) (isOpen p).

(** [_setGlobalMediaPlayer(mp)]. *)
Definition setGlobalMediaPlayer (mp : mediaPlayerValue) (w : world) : world :=
  {| globalMediaPlayerRef := Some mp; bridge := bridge w |}.

Definition onBridge (f : provider -> provider) (w : world) : world :=
  {| globalMediaPlayerRef := globalMediaPlayerRef w; bridge := f (bridge w) |}.

(** [_globalMediaPlayerRef?.m(...)] for a method [m] that returns nothing:
    no call at all while the slot is empty. *)
Definition viaSlot (onProvider : mediaPlayerValue -> provider -> provider) (w : world)
  : result unit * world :=
  match globalMediaPlayerRef w with
  | None => (Ok tt, w)
  | Some DefaultValue => (Ok tt, w)
  | Some mp => (Ok tt, onBridge (onProvider mp) w)
  end.

Definition musicPlayer_update (info : musicNotificationInfo) (w : world)
  : result unit * world :=
  viaSlot (fun _ => musicUpdate info) w.

Definition musicPlayer_setHandlers (h : musicNotificationHandlers) (w : world)
  : result unit * world :=
  viaSlot (fun mp =>
             match mp with
             | ProviderValue seen _ => musicSetHandlersSeeing seen h
             | DefaultValue => fun p => p
             end) w.

Definition musicPlayer_clear (w : world) : result unit * world :=
  viaSlot (fun _ => musicClear) w.

(** [_globalMediaPlayerRef?.musicNotification.current ?? null]. *)
Definition musicPlayer_getCurrent (w : world)
  : result (option musicNotificationInfo) * world :=
  match globalMediaPlayerRef w with
  | Some (ProviderValue current _) => (Ok current, w)
  | _ => (Ok None, w)
  end.

Definition videoPlayer_open (o : videoPlayerOptions) (w : world) : result unit * world :=
  viaSlot (fun _ => videoOpen o) w.

Definition videoPlayer_close (w : world) : result unit * world :=
  viaSlot (fun _ => videoClose) w.

(** [_globalMediaPlayerRef?.videoPlayer.isOpen ?? false]. *)
Definition videoPlayer_isOpen (w : world) : result bool * world :=
  match globalMediaPlayerRef w with
  | Some (ProviderValue _ o) => (Ok o, w)
  | _ => (Ok false, w)
  end.

(** A call an extension makes through one of the two handles, and what it
    gets back. *)
Inductive handleCall : Type :=
| MusicUpdate (info : musicNotificationInfo)
| MusicSetHandlers (h : musicNotificationHandlers)
| MusicClear
| MusicGetCurrent
| VideoOpen (o : videoPlayerOptions)
| VideoClose
| VideoIsOpen.

Inductive answer : Type :=
| Nothing
| Current (info : option musicNotificationInfo)
| Open (b : bool).

Definition answering {A : Type} (wrap : A -> answer) (r : result A * world)
  : result answer * world :=
  (match fst r with
   | Ok a => Ok (wrap a)
   | Throw e => Throw e
   end, snd r).

Definition perform (c : handleCall) (w : world) : result answer * world :=
  match c with
  | MusicUpdate info => answering (fun _ => Nothing) (musicPlayer_update info w)
  | MusicSetHandlers h => answering (fun _ => Nothing) (musicPlayer_setHandlers h w)
  | MusicClear => answering (fun _ => Nothing) (musicPlayer_clear w)
  | MusicGetCurrent => answering Current (musicPlayer_getCurrent w)
  | VideoOpen o => answering (fun _ => Nothing) (videoPlayer_open o w)
  | VideoClose => answering (fun _ => Nothing) (videoPlayer_close w)
  | VideoIsOpen => answering Open (videoPlayer_isOpen w)
  end.

(** A run of extension code: the calls it makes, one after the other. *)
Fixpoint performAll (cs : list handleCall) (w : world)
  : list (result answer) * world :=
  match cs with
  | [] => ([], w)
  | c :: rest =>
      let (r, w') := perform c w in
      let (rs, w'') := performAll rest w' in
      (r :: rs, w'')
  end.

(** What a call gets back from a handle that does nothing. *)
Definition inertAnswer (c : handleCall) : result answer :=
  match c with
  | MusicGetCurrent => Ok (Current None)
  | VideoIsOpen => Ok (Open false)
  | _ => Ok Nothing
  end.

End SandboxAPI.

(* ------------------------------------------------------------------ *)
(** ** Sample extensions, archives and engine *)

Module Sample.

Import ExtensionContext.

Definition homeTab : value :=
  VObj 2 [("id", VStr "home"); ("label", VStr "Home"); ("icon", VStr "home");
          ("component", VFun 3 "function Home() {}" (Returns PUndefined))].

(** The manifest of the fresh-install scenario. *)
Definition manifestX : value :=
  VObj 1 [("id", VStr "com.t.x"); ("name", VStr "X"); ("version", VStr "1.0.0");
          ("tabs", VArr 4 [homeTab])].

(** A later version of the same extension. *)
Definition manifestX2 : value :=
  VObj 5 [("id", VStr "com.t.x"); ("name", VStr "X"); ("version", VStr "2.0.0");
          ("tabs", VArr 6 [homeTab])].

Definition manifestY : value :=
  VObj 7 [("id", VStr "com.t.y"); ("name", VStr "Y"); ("version", VStr "0.1.0");
          ("tabs", VArr 8 [homeTab])].

(** An export whose only tab has no [label]. *)
Definition manifestNoLabel : value :=
  VObj 9 [("id", VStr "com.t.z"); ("name", VStr "Z");
          ("tabs", VArr 10 [VObj 11 [("id", VStr "home"); ("icon", VStr "home");
                                     ("component", VFun 12 "function Home() {}" (Returns PUndefined))]])].

Definition sourceX : string := "module.exports = X1;".
Definition sourceX2 : string := "module.exports = X2;".
Definition sourceY : string := "module.exports = Y;".
Definition sourceNoLabel : string := "module.exports = Z;".

(** An engine that knows these five module texts. *)
Definition engine (code : string) : moduleOutcome :=
  if String.eqb code sourceX then Returned manifestX
  else if String.eqb code sourceX2 then Returned manifestX2
  else if String.eqb code sourceY then Returned manifestY
  else if String.eqb code sourceNoLabel then Returned manifestNoLabel
  else Raised "Unexpected token '{'".

Definition member (name text : string) : zipEntry :=
  {| entryName := name; asText := text; asBase64 := "AAAA" |}.

Definition archiveX : zipArchive := [member "main.js" sourceX; member "icon.png" ""].
Definition archiveX2 : zipArchive := [member "main.js" sourceX2].
Definition archiveNoLabel : zipArchive := [member "main.js" sourceNoLabel].
Definition archiveNoMain : zipArchive := [member "readme.txt" "hello"; member "icon.png" ""].

(** An archive parser that tells the sample archives by their first byte. *)
Definition loadAsync (buf : buffer) : zipOutcome :=
  match buf with
  | Byte.x01 :: _ => Parsed archiveX
  | Byte.x02 :: _ => Parsed archiveX2
  | Byte.x03 :: _ => Parsed archiveNoLabel
  | Byte.x04 :: _ => Parsed archiveNoMain
  | _ => Rejected "Corrupted zip"
  end.

Definition fileOf (name : string) (b : Byte.byte) : file :=
  {| fileName := name; fileBytes := Some [b] |}.

Definition persist (src : string) (at_ : Z) : persistedExt :=
  {| p_mainJs := src; p_iconUri := None; p_installedAt := at_ |}.

Definition installedX : installedExtension :=
  {| manifest := manifestX; iconUri := Some "data:image/png;base64,AAAA";
     installedAt := 1000 |}.

Definition installedY : installedExtension :=
  {| manifest := manifestY; iconUri := None; installedAt := 900 |}.

(** A host with X and Y installed and persisted. *)
Definition hostXY : host :=
  {| extensions := [installedY; installedX];
     storageItem :=
       Some (StoredMap [("com.t.y", persist sourceY 900);
                        ("com.t.x", {| p_mainJs := sourceX;
                                       p_iconUri := Some "data:image/png;base64,AAAA";
                                       p_installedAt := 1000 |})]) |}.

(** Two option records for the video bridge, and a player 95 seconds into a
    100-second video. *)
Definition optionsA : MediaPlayerContext.videoPlayerOptions :=
  {| MediaPlayerContext.uri := "https://cdn.example/a.mp4";
     MediaPlayerContext.v_title := Some "A";
     MediaPlayerContext.startPosition := None;
     MediaPlayerContext.loop := None;
     MediaPlayerContext.headers := None;
     MediaPlayerContext.onEnd := Some "onEndA";
     MediaPlayerContext.onClose := None;
     MediaPlayerContext.renderControls := Some "controlsA" |}.

Definition optionsB : MediaPlayerContext.videoPlayerOptions :=
  {| MediaPlayerContext.uri := "https://cdn.example/b.m3u8";
     MediaPlayerContext.v_title := None;
     MediaPlayerContext.startPosition := Some 30%float;
     MediaPlayerContext.loop := Some false;
     MediaPlayerContext.headers := None;
     MediaPlayerContext.onEnd := None;
     MediaPlayerContext.onClose := Some "onCloseB";
     MediaPlayerContext.renderControls := None |}.

Definition playingAt95 : LhubVideoPlayer.player :=
  LhubVideoPlayer.onStatus
    {| LhubVideoPlayer.isLoaded := true;
       LhubVideoPlayer.st_error := None;
       LhubVideoPlayer.st_isPlaying := Some true;
       LhubVideoPlayer.durationMillis := Some 100000%float;
       LhubVideoPlayer.positionMillis := Some 95000%float;
       LhubVideoPlayer.st_isBuffering := Some false;
       LhubVideoPlayer.playableDurationMillis := None;
       LhubVideoPlayer.didJustFinish := false |}
    (LhubVideoPlayer.mount optionsA (Some [])).


Definition song : MediaPlayerContext.musicNotificationInfo :=
  {| MediaPlayerContext.title := "Song"; MediaPlayerContext.artist := "Band";
     MediaPlayerContext.artwork := None; MediaPlayerContext.album := None;
     MediaPlayerContext.isPlaying := true;
     MediaPlayerContext.duration := 180%float; MediaPlayerContext.position := 0%float |}.

(** [{ onPlay: f1 }] and [{ onPause: f2 }]. *)
Definition onlyPlay (f1 : MediaPlayerContext.callback)
  : MediaPlayerContext.musicNotificationHandlers :=
  {| MediaPlayerContext.onPlay := Some f1; MediaPlayerContext.onPause := None;
     MediaPlayerContext.onNext := None; MediaPlayerContext.onPrev := None;
     MediaPlayerContext.onSeek := None; MediaPlayerContext.onStop := None |}.

Definition onlyPause (f2 : MediaPlayerContext.callback)
  : MediaPlayerContext.musicNotificationHandlers :=
  {| MediaPlayerContext.onPlay := None; MediaPlayerContext.onPause := Some f2;
     MediaPlayerContext.onNext := None; MediaPlayerContext.onPrev := None;
     MediaPlayerContext.onSeek := None; MediaPlayerContext.onStop := None |}.

Definition noNative : MediaPlayerContext.nativeNotification :=
  {| MediaPlayerContext.audioModeSet := false; MediaPlayerContext.queue := None |}.

(** A provider freshly mounted in a browser that has a Media Session. *)
Definition browser : MediaPlayerContext.provider :=
  MediaPlayerContext.mountProvider MediaPlayerContext.Web
    (Some MediaPlayerContext.freshMediaSession) noNative.

End Sample.

(* ------------------------------------------------------------------ *)
(** ** Runs of the registry *)

Module ExtensionProviderRuns.

Import ExtensionContext.





Section Runs.

Variable runModule : string -> moduleOutcome.
Variable loadAsync : buffer -> zipOutcome.
Variable jszipLoads : bool.




End Runs.

End ExtensionProviderRuns.

(* ------------------------------------------------------------------ *)
(** ** Installing on a device, and the import button *)

Module ExtensionContextNative.

Import ExtensionContext.
Local Open Scope action_scope.

(** An entry of [result.assets]. *)
Record asset : Type := {
  assetName : string;
  assetUri : string
}.

(** What asking the system picker for a document comes to: the module is
    missing or the picker throws, or it resolves to a result whose [assets]
    may be absent. *)
Inductive pickerOutcome : Type :=
| PickerFailed (msg : string)
| PickerResult (canceled : bool) (assets : option (list asset)).

(** [view[i] = binary.charCodeAt(i)] for every [i]: the bytes of a binary
    string. *)
Fixpoint charCodes (binary : string) : buffer :=
  match binary with
  | EmptyString => []
  | String c rest => byte_of_ascii c :: charCodes rest
  end.

Section Native.

Variable runModule : string -> moduleOutcome.
Variable loadAsync : buffer -> zipOutcome.

(** [FileSystem.readAsStringAsync(uri, { encoding: 'base64' })]. *)
Variable readAsBase64 : string -> result string.

(** [atob]. *)
Variable atob : string -> result string.

(** Whether [require('jszip')] finds the package. *)
Variable jszipInstalled : bool.

Definition parseLhubNative (uri : string) : result parsedLhub :=
  (b64 <- readAsBase64 uri ;;
   binary <- atob b64 ;;
   let buf := charCodes binary in
   (if jszipInstalled then Ok tt
    else Throw (Error "Pacote jszip não encontrado. Rode: npx expo install jszip")) ;;;
   parseZipBuffer runModule loadAsync buf)%js.

(** [installFromNative]. *)
Definition installFromNative (now : Z) (rd wr : io) (picked : pickerOutcome)
  : action report :=
  tryCatch
    (match picked with
     | PickerFailed msg => raise (Error msg)
     | PickerResult canceled assets =>
         match canceled, assets with
         | false, Some (asset :: _) =>
             parsed <~ lift (parseLhubNative (assetUri asset)) ;;
             register now rd wr parsed
         | _, _ => ret {| ok := false; error := Some "cancelled" |}
         end
     end)
    reportFailure.

End Native.

(** The notice the Extensions screen shows for 3.5 seconds. *)
Inductive toast : Type :=
| SuccessToast (msg : string)
| ErrorToast (msg : string).

(** What [handleImport] shows once an install has reported, in the browser
    and on a device. *)
Definition toastOnWeb (r : report) : option toast :=
  if ok r then Some (SuccessToast "Extension installed!")
  else Some (ErrorToast (match error r with Some m => m | None => "Unknown error" end)).

Definition toastOnNative (r : report) : option toast :=
  if ok r then Some (SuccessToast "Extension installed!")
  else match error r with
       | Some m => if String.eqb m "cancelled" then None else Some (ErrorToast m)
       | None => Some (ErrorToast "Unknown error")
       end.

End ExtensionContextNative.

(* ------------------------------------------------------------------ *)
(** ** Runs of the navigator *)

Module ExtensionNavigatorRuns.

Import ExtensionNavigator.

(** The number of [push] calls in a run. *)
Fixpoint pushes (cs : list call) : nat :=
  match cs with
  | [] => 0
  | Push _ _ :: rest => S (pushes rest)
  | _ :: rest => pushes rest
  end.

(** Events other than a call of [pop], and updaters other than the one [pop]
    schedules. *)
Definition notPop (e : event) : bool :=
  match e with
  | Call Pop | CallKept _ Pop => false
  | _ => true
  end.

Definition notDropLast (u : updater) : bool :=
  match u with
  | DropLast => false
  | _ => true
  end.

End ExtensionNavigatorRuns.

(* ------------------------------------------------------------------ *)
(** ** Runs of the audio bridge *)

Module MediaPlayerRuns.

Import MediaPlayerContext.

(** What an extension asks of the audio-notification bridge. *)
Inductive bridgeCall : Type :=
| CallUpdate (info : musicNotificationInfo)
| CallSetHandlers (h : musicNotificationHandlers)
| CallClear.

Definition applyBridge (p : provider) (c : bridgeCall) : provider :=
  match c with
  | CallUpdate info => musicUpdate info p
  | CallSetHandlers h => musicSetHandlers h p
  | CallClear => musicClear p
  end.

Definition runBridge (cs : list bridgeCall) (p : provider) : provider :=
  fold_left applyBridge cs p.

Definition notClear (c : bridgeCall) : bool :=
  match c with
  | CallClear => false
  | _ => true
  end.

End MediaPlayerRuns.

(* ------------------------------------------------------------------ *)
(** ** Runs of the video player *)

Module LhubVideoPlayerRuns.

Import MediaPlayerContext.
Import LhubVideoPlayer.

(** What happens to a mounted player: the engine reports a status, or the
    extension's controls call one of the actions of the control surface. *)
Inductive playerEvent : Type :=
| EvStatus (st : status)
| EvPlay
| EvPause
| EvTogglePlay
| EvSeek (s : number)
| EvSkip (s : number).

Definition applyEvent (pl : player) (ev : playerEvent) : player :=
  match ev with
  | EvStatus st => onStatus st pl
  | EvPlay => play pl
  | EvPause => pause pl
  | EvTogglePlay => togglePlay pl
  | EvSeek s => seek s pl
  | EvSkip s => skip s pl
  end.

Definition runPlayer (evs : list playerEvent) (pl : player) : player :=
  fold_left applyEvent evs pl.

Definition isControl (ev : playerEvent) : bool :=
  match ev with
  | EvStatus _ => false
  | _ => true
  end.

(** A status whose times, where given, are not negative. *)
Definition notNegative (x : option number) : bool :=
  match x with
  | Some q => (0 <=? q)%float
  | None => true
  end.

Definition plausible (ev : playerEvent) : bool :=
  match ev with
  | EvStatus st =>
      notNegative (durationMillis st) && notNegative (positionMillis st)
      && notNegative (playableDurationMillis st)
  | _ => true
  end.

(** The times of a player are sound when none is negative. *)
Definition timesSound (pl : player) : Prop :=
  (0 <=? LhubVideoPlayer.duration pl)%float = true /\
  (0 <=? LhubVideoPlayer.position pl)%float = true /\
  (0 <=? buffered pl)%float = true.

End LhubVideoPlayerRuns.

(* ------------------------------------------------------------------ *)
(** ** The tab bar *)

Module TabLayout.

Import ExtensionContext.

(** [AnyTab]: a built-in tab, or a tab of an installed extension with the
    fields the bar copies from the manifest. *)
Inductive anyTab : Type :=
| BuiltinTab (name label icon iconActive : string)
| ExtTab (extId tabId label icon iconActive : value) (iconUri : option string)
         (tabObj : value).

(** [tabKey]: the name of a built-in tab; for a tab of an extension the
    two ids, each converted to a string, around [__].  The conversion may
    throw. *)
Definition tabKey (t : anyTab) : result string :=
  match t with
  | BuiltinTab name _ _ _ => Ok name
  | ExtTab extId tabId _ _ _ _ _ =>
      (e <- toStr extId ;; i <- toStr tabId ;; Ok (e ++ "__" ++ i))%js
  end.

Definition homeTab : anyTab := BuiltinTab "home" "Home" "home-outline" "home".

Definition extensionsTab : anyTab :=
  BuiltinTab "extensions" "Extensions" "puzzle-outline" "puzzle".

(** The callback of [ext.manifest.tabs.map]: the entry of the bar for the tab
    [t] of [ext].  Reading a field of an entry that is [null] or [undefined]
    throws. *)
Definition extTab (ext : installedExtension) (t : value) : result anyTab :=
  (eid <- get (manifest ext) "id" ;;
   tabId <- get t "id" ;;
   label <- get t "label" ;;
   icon <- get t "icon" ;;
   iconActive <- get t "iconActive" ;;
   Ok (ExtTab eid tabId label icon iconActive (iconUri ext) t))%js.

(** [array.map(f)] with a callback that may throw. *)
Fixpoint mapArray {A B : Type} (f : A -> result B) (l : list A) : result (list B) :=
  match l with
  | [] => Ok []
  | a :: rest => (b <- f a ;; bs <- mapArray f rest ;; Ok (b :: bs))%js
  end.

(** [array.flatMap(f)] with a callback that may throw. *)
Fixpoint flatMapArray {A B : Type} (f : A -> result (list B)) (l : list A)
  : result (list B) :=
  match l with
  | [] => Ok []
  | a :: rest => (bs <- f a ;; more <- flatMapArray f rest ;; Ok (bs ++ more)%list)%js
  end.

(** [ext.manifest.tabs.map(t => ...)].  Only an array has a [map] to call:
    on [null] and [undefined] the read of [map] throws, on anything else the
    call does (the model does not call functions, so a [map] an object would
    carry as a property of its own is not followed). *)
Definition extTabs (ext : installedExtension) : result (list anyTab) :=
  (tabsOf <- get (manifest ext) "tabs" ;;
   match tabsOf with
   | VArr _ ts => mapArray (extTab ext) ts
   | _ =>
       get tabsOf "map" ;;;
       Throw (TypeError "ext.manifest.tabs.map is not a function")
   end)%js.

(** The [tabs] of the bar, as a render of [TabLayout] builds them. *)
Definition tabs (extensions : list installedExtension) : result (list anyTab) :=
  (middle <- flatMapArray extTabs extensions ;;
   Ok (homeTab :: middle ++ [extensionsTab])%list)%js.

(** [tabs.findIndex(t => tabKey(t) === key)], [None] standing for -1; the
    search stops at the first match, and at the first key that throws. *)
Fixpoint findIndex (key : string) (l : list anyTab) : result (option nat) :=
  match l with
  | [] => Ok None
  | t :: rest =>
      (k <- tabKey t ;;
       if String.eqb k key then Ok (Some 0%nat)
       else i <- findIndex key rest ;;
            Ok (match i with
                | Some i => Some (S i)
                | None => None
                end))%js
  end.

(** [tabs.find(t => tabKey(t) === key)]. *)
Fixpoint findTab (key : string) (l : list anyTab) : result (option anyTab) :=
  match l with
  | [] => Ok None
  | t :: rest =>
      (k <- tabKey t ;;
       if String.eqb k key then Ok (Some t) else findTab key rest)%js
  end.

Inductive screenShown : Type :=
| ShowHome
| ShowExtensions
| ShowNavigator (tabObj : value)
| ShowNothing.

(** [renderScreen]. *)
Definition renderScreen (renderedKey : string) (l : list anyTab) : result screenShown :=
  if String.eqb renderedKey "home" then Ok ShowHome
  else if String.eqb renderedKey "extensions" then Ok ShowExtensions
  else (t <- findTab renderedKey l ;;
        Ok (match t with
            | Some (ExtTab _ _ _ _ _ _ tabObj) =>
                if truthy tabObj then ShowNavigator tabObj else ShowNothing
            | _ => ShowNothing
            end))%js.

(** The state of [TabLayout], with the keys the transitions in flight will
    set as [renderedKey] at their midpoints. *)
Record layout : Type := {
  activeKey : string;
  renderedKey : string;
  midpoints : list string
}.

Definition initialLayout : layout :=
  {| activeKey := "home"; renderedKey := "home"; midpoints := [] |}.

(** What a call of [handleTabPress] built over the bar [l] goes through
    before it touches the state: the key of the tab, and unless the tab is the
    active one, its index in the bar. *)
Definition pressed (l : list anyTab) (tab : anyTab) (st : layout) : result (option string) :=
  (key <- tabKey tab ;;
   if String.eqb key (activeKey st) then Ok None
   else findIndex key l ;;; Ok (Some key))%js.

(** [handleTabPress]: a press that throws, or on the active tab, leaves the
    state as it is. *)
Definition handleTabPress (l : list anyTab) (tab : anyTab) (st : layout) : layout :=
  match pressed l tab st with
  | Ok (Some key) =>
      {| activeKey := key; renderedKey := renderedKey st;
         midpoints := (midpoints st ++ [key])%list |}
  | Ok None | Throw _ => st
  end.

(** The midpoint of the oldest page transition in flight. *)
Definition pageMidpoint (st : layout) : layout :=
  match midpoints st with
  | [] => st
  | key :: rest =>
      {| activeKey := activeKey st; renderedKey := key; midpoints := rest |}
  end.


(** What happens to the layout: the user presses a tab of the bar [l] on
    display, or the oldest page transition in flight reaches its midpoint. *)
Inductive layoutEvent : Type :=
| Press (l : list anyTab) (tab : anyTab)
| Midpoint.

Definition applyLayout (st : layout) (ev : layoutEvent) : layout :=
  match ev with
  | Press l tab => handleTabPress l tab st
  | Midpoint => pageMidpoint st
  end.

Definition runLayout (evs : list layoutEvent) (st : layout) : layout :=
  fold_left applyLayout evs st.

End TabLayout.

(* ------------------------------------------------------------------ *)
(** ** Sample device, layout and players *)

Module SampleRuns.

Import ExtensionContext.

(** A device whose cache holds one picked document, the archive of X 2.0.0. *)
Definition pickedX2 : ExtensionContextNative.asset :=
  {| ExtensionContextNative.assetName := "x2.lhub";
     ExtensionContextNative.assetUri := "file:///cache/x2.lhub" |}.

Definition readAsBase64 (uri : string) : result string :=
  if String.eqb uri "file:///cache/x2.lhub" then Ok "Ag=="
  else Throw (Error "File does not exist").

Definition atob (b64 : string) : result string :=
  if String.eqb b64 "Ag==" then Ok (String (ascii_of_nat 2) EmptyString)
  else Throw (Error "The string to be decoded is not correctly encoded.").






(** A manifest whose only tab has no [label] and an [id] that is an object
    with a [toString] that is no function; and one whose [tabs] holds
    [null]. *)
Definition manifestOddId : value :=
  VObj 41 [("id", VStr "com.t.odd"); ("name", VStr "Odd");
           ("tabs", VArr 42 [VObj 43 [("id", VObj 44 [("toString", VStr "x")]);
                                      ("icon", VStr "home");
                                      ("component",
                                       VFun 45 "function Home() {}" (Returns PUndefined))]])].

Definition manifestNullTab : value :=
  VObj 46 [("id", VStr "com.t.null"); ("name", VStr "Null"); ("tabs", VArr 47 [VNull])].

Definition sourceOddId : string := "module.exports = Odd;".
Definition sourceNullTab : string := "module.exports = Null;".

Definition engineOdd (code : string) : moduleOutcome :=
  if String.eqb code sourceOddId then Returned manifestOddId
  else if String.eqb code sourceNullTab then Returned manifestNullTab
  else Faulted (TypeError "Cannot read properties of null (reading 'message')").

Definition loadAsyncOdd (buf : buffer) : zipOutcome :=
  match buf with
  | Byte.x01 :: _ => Parsed [Sample.member "main.js" sourceOddId]
  | Byte.x02 :: _ => Parsed [Sample.member "main.js" sourceNullTab]
  | Byte.x03 :: _ => Parsed [Sample.member "main.js" "throw null"]
  | _ => Rejected "Corrupted zip"
  end.

(** A tab that declares one sub-screen, and an engine on whose
    [Object.prototype] the key [constructor] is found. *)
Definition tabWithPlayer : value :=
  VObj 50 [("id", VStr "home"); ("label", VStr "Home"); ("icon", VStr "home");
           ("component", VFun 53 "function Home() {}" (Returns PUndefined));
           ("screens", VObj 51 [("player", VFun 52 "function Player() {}"
                                             (Returns PUndefined))])].

Definition inheritsConstructor (obj : value) (key : string) : bool :=
  String.eqb key "constructor".

(** A provider freshly mounted on a device. *)
Definition device : MediaPlayerContext.provider :=
  MediaPlayerContext.mountProvider MediaPlayerContext.NativeOS None Sample.noNative.

(** The browser provider once a song is announced with a play handler. *)
Definition browserPlaying : MediaPlayerContext.provider :=
  MediaPlayerContext.musicUpdate Sample.song
    (MediaPlayerContext.musicSetHandlers (Sample.onlyPlay "f1") Sample.browser).

(** A loaded status half way through a 100-second video, and the status that
    reports its end. *)
Definition halfWay : LhubVideoPlayer.status :=
  {| LhubVideoPlayer.isLoaded := true;
     LhubVideoPlayer.st_error := None;
     LhubVideoPlayer.st_isPlaying := Some true;
     LhubVideoPlayer.durationMillis := Some 100000%float;
     LhubVideoPlayer.positionMillis := Some 50000%float;
     LhubVideoPlayer.st_isBuffering := Some false;
     LhubVideoPlayer.playableDurationMillis := Some 80000%float;
     LhubVideoPlayer.didJustFinish := false |}.

Definition finished : LhubVideoPlayer.status :=
  {| LhubVideoPlayer.isLoaded := true;
     LhubVideoPlayer.st_error := None;
     LhubVideoPlayer.st_isPlaying := Some false;
     LhubVideoPlayer.durationMillis := Some 100000%float;
     LhubVideoPlayer.positionMillis := Some 100000%float;
     LhubVideoPlayer.st_isBuffering := Some false;
     LhubVideoPlayer.playableDurationMillis := None;
     LhubVideoPlayer.didJustFinish := true |}.

(** A status of an engine that failed to load the source. *)
Definition unloaded : LhubVideoPlayer.status :=
  {| LhubVideoPlayer.isLoaded := false;
     LhubVideoPlayer.st_error := Some "Source error";
     LhubVideoPlayer.st_isPlaying := None;
     LhubVideoPlayer.durationMillis := None;
     LhubVideoPlayer.positionMillis := None;
     LhubVideoPlayer.st_isBuffering := None;
     LhubVideoPlayer.playableDurationMillis := None;
     LhubVideoPlayer.didJustFinish := false |}.

(** A player that has shown an error. *)
Definition failed : LhubVideoPlayer.player :=
  LhubVideoPlayer.onStatus unloaded (LhubVideoPlayer.mount Sample.optionsB (Some [])).

(** The entry of the bar for the tab of X, and a second entry of the same
    key. *)
Definition barTabX : TabLayout.anyTab :=
  TabLayout.ExtTab (VStr "com.t.x") (VStr "home") (VStr "Home") (VStr "home") VUndefined
    (Some "data:image/png;base64,AAAA") Sample.homeTab.

Definition barTabTwin : TabLayout.anyTab :=
  TabLayout.ExtTab (VStr "com.t.x") (VStr "home") (VStr "Second") (VStr "star") VUndefined
    None (VObj 30 [("id", VStr "home"); ("label", VStr "Second"); ("icon", VStr "star");
                   ("component", VFun 31 "function Second() {}" (Returns PUndefined))]).

(** The bar over X alone. *)
Definition barOfX : list TabLayout.anyTab :=
  [TabLayout.homeTab; barTabX; TabLayout.extensionsTab].

End SampleRuns.

(* ------------------------------------------------------------------ *)
(** * Properties *)

(** ** Facts about strings *)

Lemma startsWith_append (n b : string) : startsWith n (n ++ b) = true.
Proof.
  induction n as [|c n IH]; simpl; [reflexivity|].
  rewrite Ascii.eqb_refl; exact IH.
Qed.

Lemma startsWith_append_l (n a b : string) :
  startsWith n a = true -> startsWith n (a ++ b) = true.
Proof.
  revert a; induction n as [|c n IH]; intros a H; simpl in *; [reflexivity|].
  destruct a as [|d a]; [discriminate|]; simpl.
  apply andb_true_iff in H as [H1 H2].
  rewrite H1; simpl; auto.
Qed.

Lemma startsWith_includes (n h : string) :
  startsWith n h = true -> includes n h = true.
Proof. intros H; destruct h; cbn [includes]; rewrite H; reflexivity. Qed.

Lemma includes_refl (n : string) : includes n n = true.
Proof.
  apply startsWith_includes.
  induction n as [|c n IH]; simpl; [reflexivity|].
  rewrite Ascii.eqb_refl; exact IH.
Qed.

Lemma includes_here (n b : string) : includes n (n ++ b) = true.
Proof. apply startsWith_includes, startsWith_append. Qed.

Lemma includes_append_r (n a b : string) :
  includes n b = true -> includes n (a ++ b) = true.
Proof.
  intros H; induction a as [|c a IH]; simpl; [exact H|].
  rewrite IH; apply orb_true_r.
Qed.

Lemma includes_append_l (n a b : string) :
  includes n a = true -> includes n (a ++ b) = true.
Proof.
  induction a as [|c a IH]; intros H.
  - cbn [includes] in H; rewrite orb_false_r in H.
    apply startsWith_includes; exact (startsWith_append_l n EmptyString b H).
  - cbn [includes] in H; apply orb_true_iff in H as [H|H].
    + apply startsWith_includes; exact (startsWith_append_l _ _ b H).
    + change (String c a ++ b) with (String c (a ++ b)).
      cbn [includes]; rewrite (IH H); apply orb_true_r.
Qed.

Lemma includes_join (sep n : string) (l : list string) :
  In n l -> includes n (join sep l) = true.
Proof.
  induction l as [|x l IH]; intros Hin; [destruct Hin|].
  destruct l as [|y l].
  - destruct Hin as [->|[]]; apply includes_refl.
  - change (join sep (x :: y :: l)) with (x ++ sep ++ join sep (y :: l)).
    destruct Hin as [->|Hin].
    + apply includes_here.
    + apply includes_append_r, includes_append_r, IH, Hin.
Qed.

Ltac includes_tac :=
  repeat first
    [ apply includes_refl
    | apply includes_here
    | apply includes_append_r ].

(** ** The loader: validation of the exported manifest *)

Import ExtensionContext.

Lemma tabFieldRank_inj (a b : tabField) :
  tabFieldRank a = tabFieldRank b -> a = b.
Proof. destruct a, b; simpl; intros H; congruence. Qed.

Lemma tabFieldRank_bound (a : tabField) : (tabFieldRank a < 5)%nat.
Proof. destruct a; simpl; lia. Qed.

Lemma fieldRank_inj (f g : field) : fieldRank f = fieldRank g -> f = g.
Proof.
  destruct f as [| | |i a], g as [| | |j b]; simpl; intros H;
    try reflexivity; try lia.
  pose proof (tabFieldRank_bound a); pose proof (tabFieldRank_bound b).
  assert (i = j) by lia; subst j.
  f_equal; apply tabFieldRank_inj; lia.
Qed.

Lemma provides_lacks_exclusive (exp : value) (f : field) :
  provides exp f = true -> lacks exp f = true -> False.
Proof.
  destruct f as [| | |i tf]; simpl.
  1-3: intros ->; discriminate.
  destruct (nth_error (elements (prop exp "tabs")) i) as [tab|]; [|discriminate].
  unfold tabProvides, tabLacks.
  intros H1 H2.
  apply andb_true_iff in H1 as [_ H1]; apply andb_true_iff in H2 as [_ H2].
  rewrite H1 in H2; discriminate.
Qed.

Lemma absent_lacks (exp : value) (f : field) : absent exp f -> lacks exp f = true.
Proof.
  destruct f as [| | |i tf]; simpl.
  1-3: intros ->; reflexivity.
  intros (tab & -> & Hn & Hp & Htf).
  unfold tabLacks; rewrite Hn, Hp; destruct tf; try reflexivity; congruence.
Qed.

Ltac reject_tab tf :=
  apply (TabRejected _ tf);
  [ assumption
  | simpl; assumption
  | let tf' := fresh "tf" in intros tf'; destruct tf'; simpl; auto; lia
  | includes_tac ].

(** The message for a field after [id] shows the id of the tab: either the
    id prints and the message names the field, or printing it throws. *)
Ltac reject_shown tf :=
  let shown := fresh "shown" in
  let e := fresh "e" in
  let E := fresh "E" in
  match goal with
  | |- context [toStr (prop ?tab "id")] =>
      destruct (toStr (prop tab "id")) as [shown|e] eqn:E; cbn [bind];
      [ reject_tab tf
      | apply (TabUnprintable _ tf);
        [ assumption
        | simpl; assumption
        | let tf' := fresh "tf" in intros tf'; destruct tf'; simpl; auto; lia
        | exact E ] ]
  end.

Lemma checkTab_verdict (tab : value) : tabVerdict tab (checkTab tab).
Proof.
  unfold checkTab, get.
  destruct (nullish tab) eqn:Hn; [apply TabNotAnObject; exact Hn|].
  cbn [bind].
  destruct (truthy (prop tab "id")) eqn:Hid; cbn [negb]; [|reject_tab TabId].
  destruct (truthy (prop tab "label")) eqn:Hlabel; cbn [negb]; [|reject_shown TabLabel].
  destruct (truthy (prop tab "icon")) eqn:Hicon; cbn [negb]; [|reject_shown TabIcon].
  destruct (jstype_eqb (typeOf (prop tab "component")) TFunction) eqn:Hc;
    cbn [negb]; [|reject_shown TabComponent].
  destruct (truthy (prop tab "screens") &&
            negb (jstype_eqb (typeOf (prop tab "screens")) TObject)) eqn:Hs.
  - assert (Hbad : tabFieldOk TabScreens (prop tab "screens") = false).
    { simpl. apply andb_true_iff in Hs as [-> Hs].
      apply negb_true_iff in Hs; rewrite Hs; reflexivity. }
    reject_shown TabScreens.
  - apply TabAccepted; split; [exact Hn|].
    intros tf; destruct tf; simpl; auto.
    destruct (truthy (prop tab "screens")); simpl in *; [|reflexivity].
    apply negb_false_iff in Hs; exact Hs.
Qed.

Lemma checkTabs_verdict (tabs : list value) : tabsVerdict tabs (checkTabs tabs).
Proof.
  induction tabs as [|tab rest IH]; [apply TabsAccepted; constructor|].
  cbn [checkTabs].
  pose proof (checkTab_verdict tab) as Hv.
  destruct (checkTab tab) as [[]|e] eqn:Hc; cbn [bind].
  - inversion Hv as [Hwf| | |]; subst.
    inversion IH as [Hall Heq|i t e Hnth Hbefore Hbad Heq].
    + apply TabsAccepted; constructor; assumption.
    + apply (TabsStopped (tab :: rest) (S i) t e); auto.
      intros [|j] t' Hlt Hj; simpl in Hj.
      * injection Hj as <-; exact Hwf.
      * apply (Hbefore j); [lia | exact Hj].
  - apply (TabsStopped (tab :: rest) 0%nat tab e); auto.
    intros j t Hlt; lia.
Qed.

Lemma wellFormed_provides (tab : value) (tf : tabField) :
  tabWellFormed tab -> tabProvides tab tf = true.
Proof. intros [Hn Hok]; unfold tabProvides; rewrite Hn, Hok; reflexivity. Qed.

Lemma wellFormed_not_lacking (tab : value) (tf : tabField) :
  tabWellFormed tab -> tabLacks tab tf = false.
Proof. intros [Hn Hok]; unfold tabLacks; rewrite Hn, Hok; reflexivity. Qed.

(** Every field checked before field [tf] of tab [i] is provided, when the
    top-level fields are, the tabs before [i] are well formed, and tab [i]
    meets the contract of its fields before [tf]. *)
Lemma provided_before (exp : value) (i : nat) (tab : value) (tf : tabField) :
  truthy (prop exp "id") = true ->
  truthy (prop exp "name") = true ->
  nonEmptyArray (prop exp "tabs") = true ->
  nth_error (elements (prop exp "tabs")) i = Some tab ->
  (forall j t, (j < i)%nat -> nth_error (elements (prop exp "tabs")) j = Some t ->
               tabWellFormed t) ->
  (forall tf', (tabFieldRank tf' < tabFieldRank tf)%nat -> tabProvides tab tf' = true) ->
  forall g, (fieldRank g < fieldRank (FTab i tf))%nat -> provides exp g = true.
Proof.
  intros Hid Hname Htabs Hnth Hbefore Hearlier g Hlt.
  destruct g as [| | |j tf']; simpl; auto.
  simpl in Hlt.
  pose proof (tabFieldRank_bound tf'); pose proof (tabFieldRank_bound tf).
  destruct (Nat.eq_dec j i) as [->|Hne].
  - rewrite Hnth; apply Hearlier; lia.
  - assert (Hji : (j < i)%nat) by lia.
    destruct (nth_error (elements (prop exp "tabs")) j) as [t|] eqn:Hj.
    + apply wellFormed_provides, (Hbefore j t Hji Hj).
    + apply nth_error_None in Hj.
      assert (Hi : nth_error (elements (prop exp "tabs")) i <> None) by congruence.
      apply nth_error_Some in Hi; lia.
Qed.

Lemma validateExports_verdict (exp : value) :
  isObjectLike exp = true -> verdict exp (validateExports exp).
Proof.
  intros Hobj; unfold isObjectLike in Hobj.
  apply andb_true_iff in Hobj as [Ht Hty].
  assert (Hn : nullish exp = false) by (destruct exp; simpl in *; congruence).
  unfold validateExports, get; rewrite Ht, Hty, Hn; cbn [negb orb bind].
  destruct (truthy (prop exp "id")) eqn:Hid; cbn [negb].
  2:{ apply (RejectedField exp FId); simpl.
      - rewrite Hid; reflexivity.
      - intros g; destruct g; simpl; lia.
      - reflexivity. }
  destruct (truthy (prop exp "name")) eqn:Hname; cbn [negb].
  2:{ apply (RejectedField exp FName); simpl.
      - rewrite Hname; reflexivity.
      - intros g; destruct g; simpl; auto; lia.
      - reflexivity. }
  destruct (negb (isArray (prop exp "tabs"))
            || Nat.eqb (List.length (elements (prop exp "tabs"))) 0) eqn:Htabs.
  { apply (RejectedField exp FTabs); simpl.
    - unfold nonEmptyArray.
      destruct (isArray (prop exp "tabs")); simpl in *; [|reflexivity].
      rewrite Htabs; reflexivity.
    - intros g; destruct g; simpl; auto; lia.
    - reflexivity. }
  assert (Hne : nonEmptyArray (prop exp "tabs") = true).
  { unfold nonEmptyArray. apply orb_false_iff in Htabs as [Ha Hl].
    apply negb_false_iff in Ha; rewrite Ha, Hl; reflexivity. }
  pose proof (checkTabs_verdict (elements (prop exp "tabs"))) as Hv.
  destruct (checkTabs (elements (prop exp "tabs"))) as [[]|e]; cbn [bind].
  - inversion Hv as [Hall|]; subst.
    apply Accepted; intros f; destruct f as [| | |i tf]; simpl.
    + rewrite Hid; reflexivity.
    + rewrite Hname; reflexivity.
    + rewrite Hne; reflexivity.
    + destruct (nth_error (elements (prop exp "tabs")) i) as [tab|] eqn:Hi;
        [|reflexivity].
      apply wellFormed_not_lacking.
      rewrite Forall_forall in Hall; apply Hall.
      eapply nth_error_In; exact Hi.
  - inversion Hv as [|i tab e' Hnth Hbefore Hbad]; subst.
    inversion Hbad as [|m Hnull|tf msg Hnn Hfail Hearlier Hinc
                       |tf e'' Hnn Hfail Hearlier Hshown]; subst.
    + apply (BrokenTab exp i tab); auto.
      apply (provided_before exp i tab TabId); auto.
      intros tf' Hlt; simpl in Hlt; lia.
    + apply (RejectedField exp (FTab i tf)).
      * simpl; rewrite Hnth; unfold tabLacks; rewrite Hnn, Hfail; reflexivity.
      * apply (provided_before exp i tab tf); auto.
        intros tf' Hlt; unfold tabProvides; rewrite Hnn, (Hearlier tf' Hlt); reflexivity.
      * exact Hinc.
    + apply (UnprintableTab exp i tab tf); auto.
      * simpl; rewrite Hnth; unfold tabLacks; rewrite Hnn, Hfail; reflexivity.
      * apply (provided_before exp i tab tf); auto.
        intros tf' Hlt; unfold tabProvides; rewrite Hnn, (Hearlier tf' Hlt); reflexivity.
Qed.



(** The first lacking field decides the message, when the id of every tab
    prints. *)
Lemma first_lacking_field_named (exp : value) (f : field) :
  isObjectLike exp = true ->
  forallb (fun tab => prints (prop tab "id")) (elements (prop exp "tabs")) = true ->
  lacks exp f = true ->
  (forall g, (fieldRank g < fieldRank f)%nat -> provides exp g = true) ->
  exists msg, validateExports exp = Throw (Error msg) /\ names msg f.
Proof.
  intros Hobj Hprints Hl Hfirst.
  pose proof (validateExports_verdict exp Hobj) as Hv.
  inversion Hv as [Hnone|g msg Hg Hgfirst Hnames|i tab m Hnth Hnull Hbefore
                  |i tab tf e Hnth Hg Hgfirst Hshown].
  - rewrite Hnone in Hl; discriminate.
  - exists msg; split; [reflexivity|].
    destruct (Nat.lt_trichotomy (fieldRank g) (fieldRank f)) as [Hlt|[Heq|Hgt]].
    + exfalso; apply (provides_lacks_exclusive exp g); auto.
    + apply fieldRank_inj in Heq; subst; exact Hnames.
    + exfalso; apply (provides_lacks_exclusive exp f); auto.
  - exfalso.
    destruct (Nat.lt_trichotomy (fieldRank (FTab i TabId)) (fieldRank f)) as [Hlt|[Heq|Hgt]].
    + specialize (Hfirst _ Hlt); simpl in Hfirst; rewrite Hnth in Hfirst.
      unfold tabProvides in Hfirst; rewrite Hnull in Hfirst; discriminate.
    + apply fieldRank_inj in Heq; subst f; simpl in Hl; rewrite Hnth in Hl.
      unfold tabLacks in Hl; rewrite Hnull in Hl; discriminate.
    + apply (provides_lacks_exclusive exp f); auto.
  - exfalso. rewrite forallb_forall in Hprints.
    specialize (Hprints tab (nth_error_In _ _ Hnth)).
    unfold prints in Hprints; rewrite Hshown in Hprints; discriminate.
Qed.

(** When every entry of [tabs] is an object whose id prints, a manifest that
    lacks some field is rejected with a message naming a field it lacks, no
    later in the validation order. *)
Lemma some_lacking_field_named (exp : value) (f : field) :
  isObjectLike exp = true ->
  forallb (fun tab => negb (nullish tab)) (elements (prop exp "tabs")) = true ->
  forallb (fun tab => prints (prop tab "id")) (elements (prop exp "tabs")) = true ->
  lacks exp f = true ->
  exists g msg,
    validateExports exp = Throw (Error msg) /\ lacks exp g = true /\
    names msg g /\ (fieldRank g <= fieldRank f)%nat.
Proof.
  intros Hobj Hnonull Hprints Hl.
  pose proof (validateExports_verdict exp Hobj) as Hv.
  inversion Hv as [Hnone|g msg Hg Hgfirst Hnames|i tab m Hnth Hnull Hbefore
                  |i tab tf e Hnth Hg Hgfirst Hshown].
  - rewrite Hnone in Hl; discriminate.
  - exists g, msg; repeat split; auto.
    destruct (Nat.le_gt_cases (fieldRank g) (fieldRank f)) as [Hle|Hgt]; [exact Hle|].
    exfalso; apply (provides_lacks_exclusive exp f); auto.
  - exfalso. rewrite forallb_forall in Hnonull.
    specialize (Hnonull tab (nth_error_In _ _ Hnth)).
    rewrite Hnull in Hnonull; discriminate.
  - exfalso. rewrite forallb_forall in Hprints.
    specialize (Hprints tab (nth_error_In _ _ Hnth)).
    unfold prints in Hprints; rewrite Hshown in Hprints; discriminate.
Qed.

(** ** The registry: storage helpers, install, uninstall, rehydration *)

Lemma storageLoad_total (rd : io) (h : host) :
  storageLoad rd h = (Ok (loadedValue rd h), h).
Proof.
  unfold storageLoad, tryCatch, andThen, getItem, ret, loadedValue.
  destruct rd; [destruct (storageItem h)|]; reflexivity.
Qed.

Lemma storageSave_total (wr : io) (map : storedMap) (h : host) :
  storageSave wr map h =
    (Ok tt, match wr with
            | IoOk => {| extensions := extensions h; storageItem := Some (StoredMap map) |}
            | IoFail _ => h
            end).
Proof.
  unfold storageSave, tryCatch, setItem, ret; destruct wr; reflexivity.
Qed.













(** A string converts to itself, as a key and in a template. *)
Lemma propKey_string (s : string) : propKey (VStr s) = Ok s.
Proof. reflexivity. Qed.

Lemma reportFailure_readable (e : thrown) (msg : option string) (h : host) :
  messageOf e = Ok msg ->
  reportFailure e h = (Ok {| ok := false; error := msg |}, h).
Proof. intros H; unfold reportFailure, andThen, lift, ret; rewrite H; reflexivity. Qed.


Section RegistryFacts.

Variable runModule : string -> moduleOutcome.
Variable loadAsync : buffer -> zipOutcome.
Variable jszipLoads : bool.

Let parseZipBuffer := parseZipBuffer runModule loadAsync.
Let parseLhubWeb := parseLhubWeb runModule loadAsync jszipLoads.
Let installFromFile := installFromFile runModule loadAsync jszipLoads.
Let rehydrateAll := rehydrateAll runModule.
Let evalMainJs := evalMainJs runModule.




(** An install whose reading fails with a readable message reports it and
    touches nothing. *)
Lemma install_failure (now : Z) (rd wr : io) (f : file) (e : thrown)
  (msg : option string) (h : host) :
  parseLhubWeb f = Throw e ->
  messageOf e = Ok msg ->
  installFromFile now rd wr f h = (Ok {| ok := false; error := msg |}, h).
Proof.
  intros H Hm.
  unfold installFromFile, ExtensionContext.installFromFile, tryCatch, andThen, lift.
  fold parseLhubWeb; rewrite H; apply reportFailure_readable, Hm.
Qed.






(** What [uninstallExtension] comes to. *)
Lemma uninstall_outcome (rd wr : io) (id : value) (h : host) :
  uninstallExtension rd wr id h =
    let exts := filter (fun e => strictNe (extId e) id) (extensions h) in
    match deleteRecord (loadedValue rd h) id with
    | Ok stored =>
        (Ok tt,
         match wr with
         | IoOk => {| extensions := exts; storageItem := Some (StoredMap stored) |}
         | IoFail _ => {| extensions := exts; storageItem := storageItem h |}
         end)
    | Throw e => (Throw e, {| extensions := exts; storageItem := storageItem h |})
    end.
Proof.
  unfold uninstallExtension, andThen, setExtensions, lift; rewrite storageLoad_total.
  change (loadedValue rd {| extensions := _; storageItem := storageItem h |})
    with (loadedValue rd h).
  cbv zeta; destruct (deleteRecord (loadedValue rd h) id) as [stored|e]; [|reflexivity].
  rewrite storageSave_total; destruct wr; reflexivity.
Qed.


(** The collection after an uninstall, whatever becomes of the store. *)
Lemma uninstall_collection (rd wr : io) (id : value) (h : host) :
  extensions (snd (uninstallExtension rd wr id h)) =
    filter (fun e => strictNe (extId e) id) (extensions h).
Proof.
  rewrite uninstall_outcome; cbv zeta.
  destruct (deleteRecord (loadedValue rd h) id); [destruct wr|]; reflexivity.
Qed.

End RegistryFacts.

(** ** C1: a manifest that lacks a required field *)

(** When every entry of [tabs] is an object whose id prints, a manifest that
    lacks a required field ([id], [name], a non-empty [tabs] array, or a
    tab's [id], [label], [icon] or callable [component]; a malformed
    [screens] as well) makes [evalMainJs] throw an [Error] whose message
    names, in quotes, a field the object lacks: the first one lacking in the
    order the loader checks them, hence that very field when none before it is
    lacking.  [installFromFile] on an archive carrying the module reports that
    message and leaves the installed collection and the durable store as they
    were. *)
Lemma missing_field_named_for_printable_tabs
  (runModule : string -> moduleOutcome) (loadAsync : buffer -> zipOutcome)
  (now : Z) (rd wr : io) (f : file) (buf : buffer) (zip : zipArchive)
  (mainFile : zipEntry) (exp : value) (fld : field) (h : host) :
  fileBytes f = Some buf ->
  loadAsync buf = Parsed zip ->
  zipFile zip "main.js" = Some mainFile ->
  runModule (asText mainFile) = Returned exp ->
  isObjectLike exp = true ->
  forallb (fun tab => negb (nullish tab)) (elements (prop exp "tabs")) = true ->
  forallb (fun tab => prints (prop tab "id")) (elements (prop exp "tabs")) = true ->
  lacks exp fld = true ->
  exists g msg,
    evalMainJs runModule (asText mainFile) = Throw (Error msg) /\
    lacks exp g = true /\
    names msg g /\
    (fieldRank g <= fieldRank fld)%nat /\
    ((forall g', (fieldRank g' < fieldRank fld)%nat -> provides exp g' = true) ->
     g = fld) /\
    installFromFile runModule loadAsync true now rd wr f h =
      (Ok {| ok := false; error := Some msg |}, h).
Proof.
  intros Hbytes Hzip Hmain Hrun Hobj Htabs Hprints Hlacks.
  destruct (some_lacking_field_named exp fld Hobj Htabs Hprints Hlacks)
    as (g & msg & Hval & Hg & Hnames & Hle).
  assert (Heval : evalMainJs runModule (asText mainFile) = Throw (Error msg)).
  { unfold evalMainJs; rewrite Hrun; exact Hval. }
  exists g, msg; repeat split; auto.
  - intros Hfirst.
    destruct (Nat.eq_dec (fieldRank g) (fieldRank fld)) as [Heq|Hne].
    + apply fieldRank_inj, Heq.
    + exfalso; apply (provides_lacks_exclusive exp g); [|exact Hg].
      apply Hfirst; lia.
  - apply (install_failure runModule loadAsync true now rd wr f (Error msg) (Some msg) h);
      [|reflexivity].
    unfold parseLhubWeb, getJSZip, readAsArrayBuffer, parseZipBuffer.
    rewrite Hbytes; cbn [bind]; rewrite Hzip; cbn [bind]; rewrite Hmain, Heval.
    reflexivity.
Qed.

(** An entry of [tabs] that is [null] stops validation at the first read,
    with the engine's [TypeError], which is no validation error and quotes no
    field. *)
Lemma null_tab_stops_validation :
  validateExports SampleRuns.manifestNullTab =
    Throw (TypeError "Cannot read properties of null (reading 'id')") /\
  (forall f, ~ names "Cannot read properties of null (reading 'id')" f) /\
  installFromFile SampleRuns.engineOdd SampleRuns.loadAsyncOdd true 2000 IoOk IoOk
    (Sample.fileOf "null.lhub" Byte.x02) Sample.hostXY =
    (Ok {| ok := false;
           error := Some "Cannot read properties of null (reading 'id')" |},
     Sample.hostXY).
Proof.
  split; [reflexivity|]; split; [|reflexivity].
  intros f; unfold names; destruct f as [| | |i []]; vm_compute; discriminate.
Qed.

(** C1 (as the code behaves).  The only tab of the exported manifest lacks
    its [label], and it is the first field lacking; the [id] of the tab is
    there, but it is an object whose [toString] is no function.  Building the
    message [Tab "<id>" missing "label"] converts that id and throws the
    engine's [TypeError]: [evalMainJs] fails with no validation error, and
    what [installFromFile] reports names no field at all.  The collection and
    the store are left as they were. *)
Theorem unprintable_tab_id_hides_the_missing_field :
  lacks SampleRuns.manifestOddId (FTab 0 TabLabel) = true /\
  (forall g, (fieldRank g < fieldRank (FTab 0 TabLabel))%nat ->
             provides SampleRuns.manifestOddId g = true) /\
  evalMainJs SampleRuns.engineOdd SampleRuns.sourceOddId =
    Throw (TypeError "Cannot convert object to primitive value") /\
  (forall f, ~ names "Cannot convert object to primitive value" f) /\
  installFromFile SampleRuns.engineOdd SampleRuns.loadAsyncOdd true 2000 IoOk IoOk
    (Sample.fileOf "odd.lhub" Byte.x01) Sample.hostXY =
    (Ok {| ok := false; error := Some "Cannot convert object to primitive value" |},
     Sample.hostXY).
Proof.
  split; [reflexivity|]; split; [|split; [reflexivity|split; [|reflexivity]]].
  - intros g Hlt; destruct g as [| | |[|j] []]; simpl in Hlt; try lia; reflexivity.
  - intros f; unfold names; destruct f as [| | |i []]; vm_compute; discriminate.
Qed.

(** ** C2: rehydration *)







(** ** C3: install is an upsert *)




(** ** C4: install then uninstall, and uninstalling what is not there *)




(** ** C5: replacing the audio handlers *)

Section AudioHandlers.

Import MediaPlayerContext.

(** The handler set the provider keeps is the last one given, whole. *)
Lemma setHandlers_replaces_ref (h : musicNotificationHandlers) (p : provider) :
  handlersRef (musicSetHandlers h p) = h.
Proof.
  unfold musicSetHandlers, musicSetHandlersSeeing, synchronise.
  destruct (notifInfo p); [destruct (os p)|]; reflexivity.
Qed.

Lemma whenGiven_handler (f : option callback) (a b : mediaAction) (ms : mediaSession) :
  actionHandler (whenGiven f a ms) b =
    match f with
    | Some fn => if mediaAction_eqb b a then Some fn else actionHandler ms b
    | None => actionHandler ms b
    end.
Proof. destruct f; reflexivity. Qed.

Lemma trySetPositionState_handler (st : positionState) (ms : mediaSession) :
  actionHandler (trySetPositionState st ms) = actionHandler ms.
Proof. unfold trySetPositionState; destruct (_ && _); reflexivity. Qed.

(** What [setupWebMediaSession] does to the registered handlers: those given
    in [h] are registered, the others stay as they were. *)
Lemma setupWebMediaSession_handlers (info : musicNotificationInfo)
  (h : musicNotificationHandlers) (ms : mediaSession) :
  exists ms',
    setupWebMediaSession info h (Some ms) = Some ms' /\
    forall a, actionHandler ms' a =
                match handlerFor h a with
                | Some f => Some f
                | None => actionHandler ms a
                end.
Proof.
  unfold setupWebMediaSession; eexists; split; [reflexivity|].
  intros a; rewrite trySetPositionState_handler, !whenGiven_handler.
  cbn [actionHandler].
  destruct a; cbn [handlerFor mediaAction_eqb];
    destruct (onPlay h), (onPause h), (onNext h), (onPrev h), (onSeek h); reflexivity.
Qed.

Lemma synchronise_web (info : musicNotificationInfo) (h : musicNotificationHandlers)
  (p : provider) (ms : mediaSession) :
  os p = Web -> webSession p = Some ms ->
  os (synchronise info h p) = Web /\
  notifInfo (synchronise info h p) = notifInfo p /\
  handlersRef (synchronise info h p) = handlersRef p /\
  (exists ms', webSession (synchronise info h p) = Some ms') /\
  forall a, registered (synchronise info h p) a =
              match handlerFor h a with
              | Some f => Some f
              | None => registered p a
              end.
Proof.
  intros Hos Hms; unfold synchronise, registered; rewrite Hos, Hms.
  cbn [os notifInfo handlersRef webSession].
  destruct (setupWebMediaSession_handlers info h ms) as (ms' & -> & Hh).
  repeat split; auto. exists ms'; reflexivity.
Qed.

Lemma platformPress_web (a : mediaAction) (t : number) (p : provider) :
  os p = Web ->
  platformPress a t p =
    match registered p a with
    | Some f => match a with ActSeekTo => [InvokeWith f t] | _ => [Invoke f] end
    | None => []
    end.
Proof.
  intros Hos; unfold platformPress, registered; rewrite Hos.
  destruct (webSession p); reflexivity.
Qed.

(** One step of the bridge in a browser with a Media Session, seen through
    [os], [notifInfo], [handlersRef] and the registered handlers. *)
Lemma musicUpdate_web (info : musicNotificationInfo) (p : provider) (ms : mediaSession) :
  os p = Web -> webSession p = Some ms ->
  os (musicUpdate info p) = Web /\
  notifInfo (musicUpdate info p) = Some info /\
  handlersRef (musicUpdate info p) = handlersRef p /\
  (exists ms', webSession (musicUpdate info p) = Some ms') /\
  forall a, registered (musicUpdate info p) a =
              match handlerFor (handlersRef p) a with
              | Some f => Some f
              | None => registered p a
              end.
Proof.
  intros Hos Hms; unfold musicUpdate.
  destruct (synchronise_web info (handlersRef p)
              {| notifInfo := Some info; handlersRef := handlersRef p;
                 videoOptions := videoOptions p; os := os p;
                 webSession := webSession p; native := native p |} ms Hos Hms)
    as (H1 & H2 & H3 & H4 & H5).
  cbn [handlersRef]; repeat split; auto.
Qed.

Lemma musicSetHandlers_web (h : musicNotificationHandlers) (p : provider)
  (ms : mediaSession) :
  os p = Web -> webSession p = Some ms ->
  os (musicSetHandlers h p) = Web /\
  notifInfo (musicSetHandlers h p) = notifInfo p /\
  (exists ms', webSession (musicSetHandlers h p) = Some ms') /\
  forall a, registered (musicSetHandlers h p) a =
              match notifInfo p with
              | Some _ =>
                  match handlerFor h a with
                  | Some f => Some f
                  | None => registered p a
                  end
              | None => registered p a
              end.
Proof.
  intros Hos Hms; unfold musicSetHandlers, musicSetHandlersSeeing.
  destruct (notifInfo p) as [info|] eqn:Hinfo.
  - destruct (synchronise_web info h
                {| notifInfo := notifInfo p; handlersRef := h;
                   videoOptions := videoOptions p; os := os p;
                   webSession := webSession p; native := native p |} ms Hos Hms)
      as (H1 & H2 & _ & H4 & H5).
    cbn [notifInfo] in H2; rewrite Hinfo in H1, H2, H4, H5.
    split; [exact H1 | split; [exact H2 | split; [exact H4|]]].
    intros a; rewrite H5; reflexivity.
  - cbn [os notifInfo webSession]; repeat split; auto.
    exists ms; exact Hms.
Qed.

(** With no snapshot active when the handlers are set, the next [update]
    registers the last set only: a press on play reaches nothing. *)
Lemma handlers_replaced_before_update (f1 f2 : callback) (info : musicNotificationInfo)
  (nn : nativeNotification) (t : number) :
  platformPress ActPlay t
    (musicUpdate info
       (musicSetHandlers (Sample.onlyPause f2)
          (musicSetHandlers (Sample.onlyPlay f1)
             (mountProvider Web (Some freshMediaSession) nn)))) = [].
Proof.
  set (p0 := mountProvider Web (Some freshMediaSession) nn).
  destruct (musicSetHandlers_web (Sample.onlyPlay f1) p0 freshMediaSession eq_refl eq_refl)
    as (Hos1 & Hinfo1 & (ms1 & Hms1) & Hreg1).
  set (p1 := musicSetHandlers (Sample.onlyPlay f1) p0) in *.
  destruct (musicSetHandlers_web (Sample.onlyPause f2) p1 ms1 Hos1 Hms1)
    as (Hos2 & Hinfo2 & (ms2 & Hms2) & Hreg2).
  set (p2 := musicSetHandlers (Sample.onlyPause f2) p1) in *.
  destruct (musicUpdate_web info p2 ms2 Hos2 Hms2) as (Hos3 & _ & _ & _ & Hreg3).
  rewrite (platformPress_web _ _ _ Hos3), Hreg3.
  unfold p2 at 1; rewrite setHandlers_replaces_ref; cbn [handlerFor Sample.onlyPause onPlay].
  rewrite Hreg2, Hinfo1; cbn [notifInfo p0 mountProvider].
  rewrite Hreg1; reflexivity.
Qed.

(** On the native side no press ever reaches a handler. *)
Lemma native_press_reaches_nothing (a : mediaAction) (t : number) (p : provider) :
  os p = NativeOS -> platformPress a t p = [].
Proof. unfold platformPress; intros ->; reflexivity. Qed.

(** C5 (as the code behaves).  In a browser with a Media Session, once a
    snapshot is active, [setHandlers({onPlay: f1})] followed by
    [setHandlers({onPause: f2})] leaves the provider's own handler set
    without [onPlay], yet the Media Session still has the handler of the first
    call registered for its play action: a press on play calls [f1]. *)
Theorem stale_play_handler_still_invoked (f1 f2 : callback)
  (info : musicNotificationInfo) (nn : nativeNotification) (t : number) :
  let p := musicSetHandlers (Sample.onlyPause f2)
             (musicSetHandlers (Sample.onlyPlay f1)
                (musicUpdate info (mountProvider Web (Some freshMediaSession) nn))) in
  onPlay (handlersRef p) = None /\
  platformPress ActPlay t p = [Invoke f1] /\
  platformPress ActPause t p = [Invoke f2].
Proof.
  cbv zeta.
  set (p0 := mountProvider Web (Some freshMediaSession) nn).
  destruct (musicUpdate_web info p0 freshMediaSession eq_refl eq_refl)
    as (Hos1 & Hinfo1 & _ & (ms1 & Hms1) & _).
  set (p1 := musicUpdate info p0) in *.
  destruct (musicSetHandlers_web (Sample.onlyPlay f1) p1 ms1 Hos1 Hms1)
    as (Hos2 & Hinfo2 & (ms2 & Hms2) & Hreg2).
  set (p2 := musicSetHandlers (Sample.onlyPlay f1) p1) in *.
  destruct (musicSetHandlers_web (Sample.onlyPause f2) p2 ms2 Hos2 Hms2)
    as (Hos3 & _ & _ & Hreg3).
  rewrite setHandlers_replaces_ref, !(platformPress_web _ _ _ Hos3), !Hreg3.
  rewrite Hinfo2, Hinfo1, Hreg2, Hinfo1.
  repeat split.
Qed.

End AudioHandlers.

(** ** C6: the navigation stack *)

Section NavigationStack.

Import ExtensionNavigator.

Lemma removelast_rooted (e : stackEntry) (rest : list stackEntry) :
  rest <> [] -> exists rest', removelast (e :: rest) = e :: rest'.
Proof.
  intros Hne; destruct rest as [|x rest]; [congruence|].
  exists (removelast (x :: rest)); reflexivity.
Qed.

(** A transition carried through from a settled, rooted navigator leaves it
    settled and rooted. *)
Lemma transition_keeps_root (n : navigator) (c : call) :
  pending n = [] -> wellRooted n ->
  pending (transition n c) = [] /\ wellRooted (transition n c).
Proof.
  intros Hp [rest Hs]; unfold transition, wellRooted.
  destruct c as [name args| |]; unfold navigate, navigateSeeing, animateTransition, midpoint.
  - cbn [pending stack]; rewrite Hp; cbn [app pending stack applyUpdater].
    split; [reflexivity|]. rewrite Hs; eexists; reflexivity.
  - rewrite Hs; destruct rest as [|x rest]; cbn [List.length Nat.leb].
    + rewrite Hp; split; [exact Hp|]. rewrite Hs; eexists; reflexivity.
    + cbn [pending stack]; rewrite Hp; cbn [app pending stack applyUpdater].
      split; [reflexivity|].
      apply removelast_rooted; discriminate.
  - cbn [pending stack]; rewrite Hp; cbn [app pending stack applyUpdater].
    split; [reflexivity|]. exists []; reflexivity.
Qed.

(** When every transition is carried through before the next call, the
    stack never empties and its first entry is always the root entry. *)
Lemma sequential_navigation_keeps_root (cs : list call) :
  pending (runSequential cs initial) = [] /\
  wellRooted (runSequential cs initial) /\
  (1 <= List.length (stack (runSequential cs initial)))%nat.
Proof.
  assert (H : forall n, pending n = [] -> wellRooted n ->
                        pending (runSequential cs n) = [] /\
                        wellRooted (runSequential cs n)).
  { induction cs as [|c cs IH]; intros n Hp Hr; [split; assumption|].
    cbn [runSequential fold_left].
    destruct (transition_keeps_root n c Hp Hr) as [Hp' Hr'].
    apply (IH _ Hp' Hr'). }
  destruct (H initial eq_refl (ex_intro _ [] eq_refl)) as [Hp [rest Hs]].
  split; [exact Hp|]; split; [exists rest; exact Hs|].
  rewrite Hs; simpl; lia.
Qed.

(** In a settled navigator, [pop] at the root does nothing, [pop] elsewhere
    removes the last entry only, and [popToRoot] leaves the root entry
    alone. *)
Lemma settled_pop_and_popToRoot (n : navigator) :
  pending n = [] ->
  (List.length (stack n) <= 1 -> transition n Pop = n)%nat /\
  (1 < List.length (stack n) -> stack (transition n Pop) = removelast (stack n))%nat /\
  stack (transition n PopToRoot) = [rootEntry].
Proof.
  intros Hp; unfold transition, navigate, navigateSeeing, animateTransition, midpoint; repeat split.
  - intros Hle; apply Nat.leb_le in Hle; rewrite Hle, Hp; reflexivity.
  - intros Hlt. apply Nat.leb_gt in Hlt; rewrite Hlt.
    cbn [pending stack]; rewrite Hp; reflexivity.
  - cbn [pending stack]; rewrite Hp; reflexivity.
Qed.

(** C6 (as the code behaves).  One screen deep, two [pop()] calls made before
    the first transition reaches its midpoint both pass the guard, which
    reads the stack of the current render; the two midpoints then remove two
    entries.  The stack is left empty, and the next render throws. *)
Theorem double_pop_empties_stack (name args tab : value)
  (inherits : value -> string -> bool) :
  let n := run [Call (Push name args); Midpoint; Call Pop; Call Pop; Midpoint; Midpoint]
               initial in
  stack n = [] /\ pending n = [] /\
  List.length (stack n) = 0%nat /\
  (exists m, render inherits tab n = Throw (TypeError m)) /\
  (exists m, getParams n = Throw (TypeError m)).
Proof.
  cbv zeta; unfold run, initial, initialStack; cbn.
  repeat split; eexists; reflexivity.
Qed.

End NavigationStack.

(** ** C7: the archive reader *)

Lemma zipFile_without (zip : zipArchive) (gone name : string) :
  name <> gone ->
  zipFile (filter (fun e => negb (String.eqb (entryName e) gone)) zip) name =
  zipFile zip name.
Proof.
  intros Hne; unfold zipFile.
  induction zip as [|e zip IH]; simpl; [reflexivity|].
  destruct (String.eqb (entryName e) gone) eqn:Eg; simpl.
  - destruct (String.eqb (entryName e) name) eqn:En; [|exact IH].
    apply String.eqb_eq in Eg; apply String.eqb_eq in En; congruence.
  - destruct (String.eqb (entryName e) name); [reflexivity | exact IH].
Qed.

Lemma zipFile_removed (zip : zipArchive) (gone : string) :
  zipFile (filter (fun e => negb (String.eqb (entryName e) gone)) zip) gone = None.
Proof.
  unfold zipFile.
  induction zip as [|e zip IH]; simpl; [reflexivity|].
  destruct (String.eqb (entryName e) gone) eqn:Eg; simpl; [exact IH|].
  rewrite Eg; exact IH.
Qed.

(** C7.  Reading an archive that parses but has no [main.js] member fails
    with an error whose message lists the names of the members found, each
    of which occurs in it; and reading an archive without an [icon.png]
    member whose [main.js] loads succeeds with [iconUri] null.  So the icon
    is never needed: an archive that reads still reads, with a null
    [iconUri], once its icon is taken out. *)
Theorem archive_entry_point_and_icon
  (runModule : string -> moduleOutcome) (loadAsync : buffer -> zipOutcome)
  (buf1 buf2 : buffer) (zip1 zip2 : zipArchive) (mainFile : zipEntry) (m : value) :
  loadAsync buf1 = Parsed zip1 ->
  zipFile zip1 "main.js" = None ->
  loadAsync buf2 = Parsed zip2 ->
  zipFile zip2 "icon.png" = None ->
  zipFile zip2 "main.js" = Some mainFile ->
  evalMainJs runModule (asText mainFile) = Ok m ->
  (exists msg,
     parseZipBuffer runModule loadAsync buf1 = Throw (Error msg) /\
     msg = "main.js not found. Found: " ++ join ", " (map entryName zip1) /\
     forall e, In e zip1 -> includes (entryName e) msg = true) /\
  parseZipBuffer runModule loadAsync buf2 = Ok (m, asText mainFile, None) /\
  (forall (zip : zipArchive) (b b' : buffer) (m' : value) (src : string)
          (icon : option string),
     loadAsync b = Parsed zip ->
     loadAsync b' =
       Parsed (filter (fun e => negb (String.eqb (entryName e) "icon.png")) zip) ->
     parseZipBuffer runModule loadAsync b = Ok (m', src, icon) ->
     parseZipBuffer runModule loadAsync b' = Ok (m', src, None)).
Proof.
  intros Hz1 Hno Hz2 Hicon Hmain Heval.
  split; [|split].
  - eexists; split; [|split; [reflexivity|]].
    + unfold parseZipBuffer; rewrite Hz1; cbn [bind]; rewrite Hno; reflexivity.
    + intros e He.
      apply includes_append_r, includes_join, in_map, He.
  - unfold parseZipBuffer; rewrite Hz2; cbn [bind].
    rewrite Hmain, Hicon, Heval; reflexivity.
  - intros zip b b' m' src icon Hb Hb'.
    unfold parseZipBuffer; rewrite Hb, Hb'; cbn [bind].
    rewrite zipFile_without by discriminate.
    rewrite zipFile_removed.
    destruct (zipFile zip "main.js") as [mf|] eqn:Hmf; [|discriminate].
    destruct (evalMainJs runModule (asText mf)) as [m0|e]; [|discriminate].
    cbn [bind]; intros H; injection H as <- <- _; reflexivity.
Qed.

Lemma archive_entry_point_and_icon_witness :
  (exists msg,
     parseZipBuffer Sample.engine Sample.loadAsync [Byte.x04] = Throw (Error msg) /\
     msg = "main.js not found. Found: " ++ join ", " (map entryName Sample.archiveNoMain) /\
     forall e, In e Sample.archiveNoMain -> includes (entryName e) msg = true) /\
  parseZipBuffer Sample.engine Sample.loadAsync [Byte.x02] =
    Ok (Sample.manifestX2, Sample.sourceX2, None).
Proof.
  pose proof (archive_entry_point_and_icon Sample.engine Sample.loadAsync
                [Byte.x04] [Byte.x02] Sample.archiveNoMain Sample.archiveX2
                (Sample.member "main.js" Sample.sourceX2) Sample.manifestX2
                eq_refl eq_refl eq_refl eq_refl eq_refl eq_refl) as H.
  split; apply H.
Defined.

(** ** C8: one video session, replaced on open *)

Section VideoSession.

Import MediaPlayerContext.

(** C8.  The provider renders at most one video session.  After [open(A)]
    and then [open(B)], with no [close] in between, there is exactly one,
    with the options [B], and [isOpen] is true, as it was after [open(A)];
    [close] leaves no session and [isOpen] false.  The same holds through
    the [videoPlayer] handle of the capability table once a provider is in
    the slot. *)
Theorem video_open_replaces_session (a b : videoPlayerOptions) (p : provider) :
  (forall q, (List.length (liveSessions q) <= 1)%nat) /\
  isOpen (videoOpen a p) = true /\
  liveSessions (videoOpen b (videoOpen a p)) = [b] /\
  isOpen (videoOpen b (videoOpen a p)) = true /\
  liveSessions (videoClose (videoOpen b (videoOpen a p))) = [] /\
  isOpen (videoClose (videoOpen b (videoOpen a p))) = false /\
  (forall w mp,
     SandboxAPI.globalMediaPlayerRef w = Some mp ->
     mp <> SandboxAPI.DefaultValue ->
     let w2 := snd (SandboxAPI.videoPlayer_open b (snd (SandboxAPI.videoPlayer_open a w))) in
     liveSessions (SandboxAPI.bridge w2) = [b] /\
     fst (SandboxAPI.videoPlayer_isOpen
            (SandboxAPI.setGlobalMediaPlayer
               (SandboxAPI.contextValue (SandboxAPI.bridge w2)) w2)) = Ok true /\
     liveSessions (SandboxAPI.bridge (snd (SandboxAPI.videoPlayer_close w2))) = []).
Proof.
  split; [intros q; unfold liveSessions; destruct (videoOptions q); simpl; lia|].
  repeat (split; [reflexivity|]).
  intros w mp Hslot Hlive.
  unfold SandboxAPI.videoPlayer_open, SandboxAPI.videoPlayer_close, SandboxAPI.viaSlot.
  rewrite Hslot.
  destruct mp as [|cur o]; [congruence|].
  cbn [snd SandboxAPI.onBridge SandboxAPI.globalMediaPlayerRef SandboxAPI.bridge].
  rewrite Hslot.
  cbn [snd SandboxAPI.onBridge SandboxAPI.globalMediaPlayerRef SandboxAPI.bridge].
  rewrite Hslot.
  repeat split; reflexivity.
Qed.

Lemma video_open_replaces_session_witness :
  liveSessions (videoOpen Sample.optionsB (videoOpen Sample.optionsA Sample.browser)) =
    [Sample.optionsB] /\
  liveSessions
    (SandboxAPI.bridge
       (snd (SandboxAPI.videoPlayer_open Sample.optionsB
               (snd (SandboxAPI.videoPlayer_open Sample.optionsA
                       (SandboxAPI.setGlobalMediaPlayer
                          (SandboxAPI.contextValue Sample.browser)
                          (SandboxAPI.unmounted Sample.browser))))))) =
    [Sample.optionsB].
Proof.
  pose proof (video_open_replaces_session Sample.optionsA Sample.optionsB Sample.browser)
    as (_ & _ & Hone & _ & _ & _ & Hhandle).
  split; [exact Hone|].
  assert (Hlive : SandboxAPI.contextValue Sample.browser <> SandboxAPI.DefaultValue)
    by discriminate.
  exact (proj1 (Hhandle
                  (SandboxAPI.setGlobalMediaPlayer
                     (SandboxAPI.contextValue Sample.browser)
                     (SandboxAPI.unmounted Sample.browser))
                  (SandboxAPI.contextValue Sample.browser) eq_refl Hlive)).
Defined.

End VideoSession.

(** ** Doubles: order, minimum and maximum *)

Lemma SFcompare_antisym (x y : spec_float) :
  SFcompare y x = option_map CompOpp (SFcompare x y).
Proof.
  destruct x as [sx|sx| |sx mx ex], y as [sy|sy| |sy my ey]; simpl;
    try reflexivity;
    try (destruct sx; reflexivity); try (destruct sy; reflexivity);
    try (destruct sx, sy; reflexivity).
  destruct sx, sy; simpl; try reflexivity;
    rewrite (Z.compare_antisym ex ey); destruct (ex ?= ey)%Z; simpl; try reflexivity;
    pose proof (Pos.compare_cont_antisym mx my Eq) as H; simpl in H; rewrite <- H;
    destruct (Pos.compare_cont Eq mx my); reflexivity.
Qed.

Lemma not_nan_spec (x : float) : is_nan x = false -> Prim2SF x <> S754_nan.
Proof.
  unfold is_nan; rewrite eqb_spec; unfold SFeqb; intros H E; rewrite E in H; discriminate.
Qed.

Lemma is_nan_spec (x : float) : Prim2SF x <> S754_nan -> is_nan x = false.
Proof.
  unfold is_nan; rewrite eqb_spec; unfold SFeqb.
  destruct (Prim2SF x) as [s|s| |s m e]; intros H; simpl.
  - reflexivity.
  - destruct s; reflexivity.
  - congruence.
  - rewrite Z.compare_refl, Pos.compare_cont_refl; destruct s; reflexivity.
Qed.

Lemma compared (x y : float) :
  is_nan x = false -> is_nan y = false ->
  exists c, SFcompare (Prim2SF x) (Prim2SF y) = Some c.
Proof.
  intros Hx Hy; apply not_nan_spec in Hx, Hy; revert Hx Hy.
  destruct (Prim2SF x) as [sx|sx| |sx mx ex], (Prim2SF y) as [sy|sy| |sy my ey];
    intros Hx Hy; simpl; try congruence; eexists; reflexivity.
Qed.

Lemma leb_not_nan (x y : float) :
  (x <=? y)%float = true -> is_nan x = false /\ is_nan y = false.
Proof.
  rewrite leb_spec; unfold SFleb; intros H.
  split; apply is_nan_spec; intros E; rewrite E in H;
    [|destruct (Prim2SF x)]; discriminate.
Qed.

Lemma ltb_leb (x y : float) : (x <? y)%float = true -> (x <=? y)%float = true.
Proof.
  rewrite ltb_spec, leb_spec; unfold SFltb, SFleb.
  destruct (SFcompare _ _) as [[| |]|]; intros H; try discriminate; reflexivity.
Qed.

Lemma leb_refl (x : float) : is_nan x = false -> (x <=? x)%float = true.
Proof.
  unfold is_nan; rewrite eqb_spec, leb_spec; unfold SFeqb, SFleb.
  destruct (SFcompare _ _) as [[| |]|]; intros H; try discriminate; reflexivity.
Qed.

Lemma tie_leb (x y : float) :
  is_nan x = false -> is_nan y = false ->
  (x <? y)%float = false -> (y <? x)%float = false -> (x <=? y)%float = true.
Proof.
  intros Hx Hy; rewrite !ltb_spec, leb_spec; unfold SFltb, SFleb.
  rewrite (SFcompare_antisym (Prim2SF x) (Prim2SF y)).
  destruct (compared x y Hx Hy) as [c ->]; destruct c; simpl; intros; congruence.
Qed.


Lemma jsMax_nan (a b : MediaPlayerContext.number) : is_nan a || is_nan b = true -> MediaPlayerContext.jsMax a b = nan.
Proof. intros H; unfold MediaPlayerContext.jsMax; rewrite H; reflexivity. Qed.

Lemma jsMin_below (a b : MediaPlayerContext.number) :
  is_nan a = false -> is_nan b = false ->
  is_nan (MediaPlayerContext.jsMin a b) = false /\
  (MediaPlayerContext.jsMin a b <=? a)%float = true /\ (MediaPlayerContext.jsMin a b <=? b)%float = true.
Proof.
  intros Ha Hb; unfold MediaPlayerContext.jsMin; rewrite Ha, Hb; cbn [orb].
  destruct (a <? b)%float eqn:E1; [|destruct (b <? a)%float eqn:E2].
  - repeat split; auto using leb_refl, ltb_leb.
  - repeat split; auto using leb_refl, ltb_leb.
  - destruct (get_sign a); repeat split; auto using leb_refl, tie_leb.
Qed.

Lemma jsMax_clamps (d m : MediaPlayerContext.number) :
  (0 <=? d)%float = true -> is_nan m = false -> (m <=? d)%float = true ->
  (0 <=? MediaPlayerContext.jsMax 0%float m)%float = true /\ (MediaPlayerContext.jsMax 0%float m <=? d)%float = true.
Proof.
  intros Hd Hm Hmd; unfold MediaPlayerContext.jsMax.
  change (is_nan 0%float) with false; rewrite Hm; cbn [orb].
  destruct (0 <? m)%float eqn:E1; [|destruct (m <? 0)%float eqn:E2].
  - split; [apply ltb_leb, E1 | exact Hmd].
  - split; [reflexivity | exact Hd].
  - change (get_sign 0%float) with false; cbv iota. split; [reflexivity | exact Hd].
Qed.

(** Dividing by a thousand keeps a number that is not negative so. *)
Lemma iter_pos_shr_1_nonneg (p : positive) (mrs : shr_record) :
  (0 <= shr_m mrs)%Z -> (0 <= shr_m (iter_pos shr_1 p mrs))%Z.
Proof.
  revert mrs; induction p as [p IH|p IH|]; intros mrs H; cbn [iter_pos].
  - apply IH, IH. destruct mrs as [[|[q|q|]|q] r s]; simpl in *; lia.
  - apply IH, IH, H.
  - destruct mrs as [[|[q|q|]|q] r s]; simpl in *; lia.
Qed.

Lemma shr_fexp_nonneg (prec emax : Z) (m e : Z) (l : location) :
  (0 <= m)%Z -> (0 <= shr_m (fst (shr_fexp prec emax m e l)))%Z.
Proof.
  intros H; unfold shr_fexp, shr.
  assert (H0 : (0 <= shr_m (shr_record_of_loc m l))%Z)
    by (destruct l as [|[| |]]; exact H).
  destruct (_ - e)%Z; cbn [fst]; auto using iter_pos_shr_1_nonneg.
Qed.

Lemma binary_round_aux_sign (prec emax : Z) (sx : bool) (mx ex : Z) (lx : location) :
  (0 <= mx)%Z ->
  binary_round_aux prec emax sx mx ex lx = S754_zero sx \/
  binary_round_aux prec emax sx mx ex lx = S754_infinity sx \/
  exists m e, binary_round_aux prec emax sx mx ex lx = S754_finite sx m e.
Proof.
  intros H; unfold binary_round_aux.
  pose proof (shr_fexp_nonneg prec emax mx ex lx H) as H1.
  destruct (shr_fexp prec emax mx ex lx) as [mrs' e']; cbn [fst] in H1.
  assert (H2 : (0 <= round_nearest_even (shr_m mrs') (loc_of_shr_record mrs'))%Z).
  { unfold round_nearest_even.
    destruct (loc_of_shr_record mrs') as [|[| |]]; try exact H1; [|lia].
    destruct (Z.even (shr_m mrs')); lia. }
  pose proof (shr_fexp_nonneg prec emax _ e' loc_Exact H2) as H3.
  destruct (shr_fexp prec emax _ e' loc_Exact) as [mrs'' e'']; cbn [fst] in H3.
  destruct (shr_m mrs'') as [|m|m]; [left; reflexivity| |lia].
  destruct (e'' <=? emax - prec)%Z; [right; right; eexists; eexists; reflexivity|].
  right; left; reflexivity.
Qed.

Lemma div_eucl_nonneg (a b : Z) : (0 <= a)%Z -> (0 < b)%Z -> (0 <= fst (Z.div_eucl a b))%Z.
Proof.
  intros Ha Hb. change (fst (Z.div_eucl a b)) with (a / b)%Z.
  apply Z.div_pos; assumption.
Qed.

Lemma SFdiv_sign (prec emax : Z) (x y : spec_float) :
  match x with S754_nan => False | S754_finite true _ _ => False | S754_infinity true => False | _ => True end ->
  match y with S754_finite false _ _ => True | _ => False end ->
  match SFdiv prec emax x y with
  | S754_nan => False
  | S754_finite true _ _ => False
  | S754_infinity true => False
  | _ => True
  end.
Proof.
  destruct x as [sx|[|]| |[|] mx ex], y as [sy|sy| |[|] my ey]; simpl; try tauto.
  intros _ _. unfold SFdiv_core_binary.
  set (m' := match _ with Z0 => _ | Zpos _ => _ | Zneg _ => _ end).
  assert (Hm : (0 <= m')%Z).
  { subst m'. destruct (_ - _ - _)%Z; try lia. apply Z.shiftl_nonneg; lia. }
  pose proof (div_eucl_nonneg m' (Zpos my) Hm eq_refl) as Hq.
  destruct (Z.div_eucl m' (Zpos my)) as [q r]; cbn [fst] in Hq.
  destruct (binary_round_aux_sign prec emax false q
              (Z.min (SpecFloat.fexp prec emax (Zdigits2 (Zpos mx) + ex - (Zdigits2 (Zpos my) + ey))) (ex - ey))
              (new_location (Zpos my) r) Hq) as [E|[E|(m & e & E)]];
    rewrite E; exact I.
Qed.

Lemma div_keeps_sign (x : float) :
  (0 <=? x)%float = true -> (0 <=? x / 1000)%float = true.
Proof.
  rewrite !leb_spec, div_spec; unfold SFleb.
  change (Prim2SF 0) with (S754_zero false).
  intros H.
  assert (Hx : match Prim2SF x with S754_nan => False | S754_finite true _ _ => False | S754_infinity true => False | _ => True end).
  { destruct (Prim2SF x) as [s|[|]| |[|] m e]; simpl in H; try discriminate; exact I. }
  assert (Hy : match Prim2SF 1000 with S754_finite false _ _ => True | _ => False end)
    by (vm_compute; exact I).
  pose proof (SFdiv_sign prec emax (Prim2SF x) (Prim2SF 1000) Hx Hy) as Hd.
  unfold SF64div.
  destruct (SFdiv prec emax (Prim2SF x) (Prim2SF 1000)) as [s|[|]| |[|] m e];
    simpl in *; try tauto.
Qed.

(** ** C9: the video control surface *)

Section VideoControls.

Import MediaPlayerContext.
Import LhubVideoPlayer.

Lemma skipTarget_bounds (pl : player) (s : number) :
  (0 <=? LhubVideoPlayer.duration pl)%float = true ->
  is_nan (LhubVideoPlayer.position pl + s)%float = false ->
  (0 <=? skipTarget pl s)%float = true /\
  (skipTarget pl s <=? LhubVideoPlayer.duration pl)%float = true.
Proof.
  intros Hd Hsum; unfold skipTarget.
  destruct (leb_not_nan _ _ Hd) as [_ Hdn].
  destruct (jsMin_below _ _ Hdn Hsum) as (Hm & Hmd & _).
  apply jsMax_clamps; assumption.
Qed.





End VideoControls.

(** ** C10: the media handles before a provider is mounted *)

Section MediaHandles.

Import MediaPlayerContext.

(** Each handle on its own, on an empty slot. *)
Lemma handle_inert (w : SandboxAPI.world) (c : SandboxAPI.handleCall) :
  SandboxAPI.globalMediaPlayerRef w = None ->
  SandboxAPI.perform c w = (SandboxAPI.inertAnswer c, w).
Proof.
  intros Hslot; destruct c; unfold SandboxAPI.perform, SandboxAPI.answering,
    SandboxAPI.musicPlayer_update, SandboxAPI.musicPlayer_setHandlers,
    SandboxAPI.musicPlayer_clear, SandboxAPI.musicPlayer_getCurrent,
    SandboxAPI.videoPlayer_open, SandboxAPI.videoPlayer_close,
    SandboxAPI.videoPlayer_isOpen, SandboxAPI.viaSlot;
    rewrite Hslot; reflexivity.
Qed.

(** C10.  While [_globalMediaPlayerRef] is unset, every call through the
    [musicPlayer] and [videoPlayer] handles returns without throwing and
    leaves the world, the bridge included, exactly as it was, so that this
    goes on holding over any run of such calls; [videoPlayer.isOpen()]
    answers false and [musicPlayer.getCurrent()] null. *)
Theorem media_handles_inert_before_mount (w : SandboxAPI.world)
  (cs : list SandboxAPI.handleCall)
  (info : musicNotificationInfo) (h : musicNotificationHandlers)
  (o : videoPlayerOptions) :
  SandboxAPI.globalMediaPlayerRef w = None ->
  SandboxAPI.performAll cs w = (map SandboxAPI.inertAnswer cs, w) /\
  SandboxAPI.musicPlayer_update info w = (Ok tt, w) /\
  SandboxAPI.musicPlayer_setHandlers h w = (Ok tt, w) /\
  SandboxAPI.musicPlayer_clear w = (Ok tt, w) /\
  SandboxAPI.musicPlayer_getCurrent w = (Ok None, w) /\
  SandboxAPI.videoPlayer_open o w = (Ok tt, w) /\
  SandboxAPI.videoPlayer_close w = (Ok tt, w) /\
  SandboxAPI.videoPlayer_isOpen w = (Ok false, w).
Proof.
  intros Hslot; split.
  - induction cs as [|c rest IH]; [reflexivity|].
    cbn [SandboxAPI.performAll map].
    rewrite (handle_inert w c Hslot), IH; reflexivity.
  - unfold SandboxAPI.musicPlayer_update, SandboxAPI.musicPlayer_setHandlers,
      SandboxAPI.musicPlayer_clear, SandboxAPI.musicPlayer_getCurrent,
      SandboxAPI.videoPlayer_open, SandboxAPI.videoPlayer_close,
      SandboxAPI.videoPlayer_isOpen, SandboxAPI.viaSlot.
    rewrite Hslot; repeat split; reflexivity.
Qed.

Lemma media_handles_inert_before_mount_witness :
  SandboxAPI.performAll
    [SandboxAPI.MusicSetHandlers (Sample.onlyPlay "f1");
     SandboxAPI.MusicUpdate Sample.song;
     SandboxAPI.VideoOpen Sample.optionsA;
     SandboxAPI.VideoIsOpen;
     SandboxAPI.MusicGetCurrent;
     SandboxAPI.VideoClose;
     SandboxAPI.MusicClear]
    (SandboxAPI.unmounted Sample.browser) =
    ([Ok SandboxAPI.Nothing; Ok SandboxAPI.Nothing; Ok SandboxAPI.Nothing;
      Ok (SandboxAPI.Open false); Ok (SandboxAPI.Current None);
      Ok SandboxAPI.Nothing; Ok SandboxAPI.Nothing],
     SandboxAPI.unmounted Sample.browser).
Proof.
  exact (proj1 (media_handles_inert_before_mount
                  (SandboxAPI.unmounted Sample.browser)
                  [SandboxAPI.MusicSetHandlers (Sample.onlyPlay "f1");
                   SandboxAPI.MusicUpdate Sample.song;
                   SandboxAPI.VideoOpen Sample.optionsA;
                   SandboxAPI.VideoIsOpen;
                   SandboxAPI.MusicGetCurrent;
                   SandboxAPI.VideoClose;
                   SandboxAPI.MusicClear]
                  Sample.song (Sample.onlyPlay "f1") Sample.optionsA eq_refl)).
Defined.

(** Once a provider has put its value in the slot, the same calls do reach
    the bridge. *)
Lemma media_handles_live_after_mount (p : provider) (o : videoPlayerOptions) :
  let w := SandboxAPI.setGlobalMediaPlayer (SandboxAPI.contextValue p)
             (SandboxAPI.unmounted p) in
  isOpen (SandboxAPI.bridge (snd (SandboxAPI.videoPlayer_open o w))) = true.
Proof. reflexivity. Qed.

End MediaHandles.

(* ------------------------------------------------------------------ *)
(** * Further properties of the registry *)

Section RegistryMore.

Import ExtensionProviderRuns.

Variable runModule : string -> moduleOutcome.
Variable loadAsync : buffer -> zipOutcome.
Variable jszipLoads : bool.



















End RegistryMore.




Lemma objGet_objDelete_other (k k' : string) (m : storedMap) :
  k' <> k -> objGet k' (objDelete k m) = objGet k' m.
Proof.
  intros Hne; induction m as [|[k0 v0] m IH]; simpl; [reflexivity|].
  destruct (String.eqb k0 k) eqn:E; simpl.
  - apply String.eqb_eq in E; subst k0.
    destruct (String.eqb k k') eqn:E'; [|exact IH].
    apply String.eqb_eq in E'; congruence.
  - rewrite IH; reflexivity.
Qed.

(** X9.  [uninstallExtension] touches the records of the given id only: a
    record of another id is in the collection afterwards exactly when it was
    before, and the records that stay keep their order, however the store
    behaves; and, the store being read, a key of the stored map other than
    the one the id converts to keeps its record, whatever the write does. *)
Theorem uninstall_leaves_the_others (rd wr : io) (id : value) (e : installedExtension)
  (k : string) (h : host) :
  strictEq (extId e) id = false ->
  (forall kid, propKey id = Ok kid -> k <> kid) ->
  (In e (extensions (snd (uninstallExtension rd wr id h))) <-> In e (extensions h)) /\
  extensions (snd (uninstallExtension rd wr id h)) =
    filter (fun x => strictNe (extId x) id) (extensions h) /\
  objGet k (persisted (snd (uninstallExtension IoOk wr id h))) = objGet k (persisted h).
Proof.
  intros He Hk; split; [|split].
  - rewrite uninstall_collection, filter_In; unfold strictNe; rewrite He;
      cbn [negb]; tauto.
  - apply uninstall_collection.
  - rewrite uninstall_outcome; cbv zeta.
    unfold deleteRecord, loadedValue, persisted.
    destruct (storageItem h) as [[stored|]|] eqn:Hs; cbn [snd storageItem];
      rewrite ?Hs; try reflexivity.
    + destruct (propKey id) as [kid|err] eqn:Hkid; cbn [bind snd storageItem];
        rewrite ?Hs; [|reflexivity].
      destruct wr; cbn [storageItem]; rewrite ?Hs; [|reflexivity].
      apply objGet_objDelete_other, Hk; reflexivity.
    + destruct (propKey id) as [kid|err] eqn:Hkid; cbn [bind snd storageItem];
        rewrite ?Hs; [|reflexivity].
      destruct wr; cbn [storageItem]; rewrite ?Hs; reflexivity.
Qed.


Lemma uninstall_leaves_the_others_witness :
  (In Sample.installedX
      (extensions (snd (uninstallExtension IoOk IoOk (VStr "com.t.y") Sample.hostXY))) <->
   In Sample.installedX (extensions Sample.hostXY)) /\
  objGet "com.t.x"
    (persisted (snd (uninstallExtension IoOk IoOk (VStr "com.t.y") Sample.hostXY))) =
    objGet "com.t.x" (persisted Sample.hostXY).
Proof.
  assert (Hk : forall kid, propKey (VStr "com.t.y") = Ok kid -> "com.t.x" <> kid)
    by (intros kid H; injection H as <-; discriminate).
  pose proof (uninstall_leaves_the_others IoOk IoOk (VStr "com.t.y") Sample.installedX
                "com.t.x" Sample.hostXY eq_refl Hk) as (Hin & _ & Hget).
  split; [exact Hin | exact Hget].
Defined.





(* ------------------------------------------------------------------ *)
(** * The native install path *)

Section NativeInstall.

Import ExtensionContextNative.

Variable runModule : string -> moduleOutcome.
Variable loadAsync : buffer -> zipOutcome.
Variable readAsBase64 : string -> result string.
Variable atob : string -> result string.
Variable jszipInstalled : bool.

(** X10.  A pick that is cancelled, or that comes back with no asset, ends the
    native install at once: it reports [ok: false] with the error
    [cancelled], nothing is read, the host is as it was, and the Extensions
    screen shows no notice. *)
Theorem cancelled_pick_changes_nothing (now : Z) (rd wr : io) (canceled : bool)
  (assets : option (list asset)) (h : host) :
  canceled = true \/ assets = None \/ assets = Some [] ->
  installFromNative runModule loadAsync readAsBase64 atob jszipInstalled now rd wr
    (PickerResult canceled assets) h =
    (Ok {| ok := false; error := Some "cancelled" |}, h) /\
  toastOnNative {| ok := false; error := Some "cancelled" |} = None.
Proof.
  intros H; split; [|reflexivity].
  unfold installFromNative, tryCatch, ret.
  destruct H as [->|[->| ->]]; [destruct assets as [[|a l]|]| destruct canceled..];
    reflexivity.
Qed.

(** X11.  On the same bytes the two install paths do the same: when the
    picked document is read and decoded and the archive parser is there, the
    native install has the very outcome, report and host, of the browser
    install on a file with those bytes. *)
Theorem native_install_agrees_with_web (now : Z) (rd wr : io) (a : asset)
  (others : list asset) (b64 binary name : string) (h : host) :
  readAsBase64 (assetUri a) = Ok b64 ->
  atob b64 = Ok binary ->
  jszipInstalled = true ->
  installFromNative runModule loadAsync readAsBase64 atob jszipInstalled now rd wr
    (PickerResult false (Some (a :: others))) h =
  installFromFile runModule loadAsync true now rd wr
    {| fileName := name; fileBytes := Some (charCodes binary) |} h.
Proof.
  intros Hread Hatob Hzip.
  unfold installFromNative, installFromFile, parseLhubNative, parseLhubWeb,
    getJSZip, readAsArrayBuffer.
  rewrite Hread; cbn [bind]; rewrite Hatob, Hzip; reflexivity.
Qed.

End NativeInstall.

Lemma cancelled_pick_changes_nothing_witness :
  ExtensionContextNative.installFromNative Sample.engine Sample.loadAsync
    SampleRuns.readAsBase64 SampleRuns.atob true 2000 IoOk IoOk
    (ExtensionContextNative.PickerResult true (Some [SampleRuns.pickedX2])) Sample.hostXY =
    (Ok {| ok := false; error := Some "cancelled" |}, Sample.hostXY).
Proof.
  exact (proj1 (cancelled_pick_changes_nothing Sample.engine Sample.loadAsync
                  SampleRuns.readAsBase64 SampleRuns.atob true 2000 IoOk IoOk true
                  (Some [SampleRuns.pickedX2]) Sample.hostXY (or_introl eq_refl))).
Defined.

Lemma native_install_agrees_with_web_witness :
  ExtensionContextNative.installFromNative Sample.engine Sample.loadAsync
    SampleRuns.readAsBase64 SampleRuns.atob true 2000 IoOk IoOk
    (ExtensionContextNative.PickerResult false (Some [SampleRuns.pickedX2])) Sample.hostXY =
  installFromFile Sample.engine Sample.loadAsync true 2000 IoOk IoOk
    (Sample.fileOf "x2.lhub" Byte.x02) Sample.hostXY.
Proof.
  exact (native_install_agrees_with_web Sample.engine Sample.loadAsync
           SampleRuns.readAsBase64 SampleRuns.atob true 2000 IoOk IoOk
           SampleRuns.pickedX2 [] "Ag==" (String (ascii_of_nat 2) EmptyString) "x2.lhub"
           Sample.hostXY eq_refl eq_refl eq_refl).
Defined.

(* ------------------------------------------------------------------ *)
(** * Further properties of the navigation stack *)

Section NavigationMore.

Import ExtensionNavigator.
Import ExtensionNavigatorRuns.

Lemma current_after_append (l : list stackEntry) (e : stackEntry) (p : list updater) :
  current {| stack := (l ++ [e])%list; pending := p |} = Some e.
Proof.
  unfold current; cbn [stack].
  destruct l as [|x l]; [reflexivity|].
  cbn [app]; f_equal; apply last_last.
Qed.

Lemma transition_push (n : navigator) (name args : value) :
  pending n = [] ->
  transition n (Push name args) =
    {| stack := (stack n ++ [{| screenName := name;
                                params := if nullish args then VObj 0 [] else args |}])%list;
       pending := [] |}.
Proof.
  intros Hp; unfold transition, navigate, navigateSeeing, animateTransition, midpoint.
  cbn [pending stack]; rewrite Hp; reflexivity.
Qed.

(** X12.  Carried through one after the other, [push] and then [pop] bring a
    navigator whose stack is not empty back to exactly where it was: same
    entries, same params. *)
Theorem push_then_pop_restores (n : navigator) (name args : value) :
  pending n = [] ->
  stack n <> [] ->
  transition (transition n (Push name args)) Pop = n.
Proof.
  intros Hp Hne; rewrite (transition_push n name args Hp).
  unfold transition, navigate, navigateSeeing, animateTransition, midpoint;
    cbn [stack pending].
  rewrite length_app; cbn [List.length].
  assert (Hlen : (0 < List.length (stack n))%nat)
    by (destruct (stack n); [congruence | simpl; lia]).
  replace (Nat.leb (List.length (stack n) + 1) 1) with false
    by (symmetry; apply Nat.leb_gt; lia).
  cbn [stack pending applyUpdater]; change ([] ++ [DropLast])%list with [DropLast].
  cbv iota; cbn [applyUpdater]; rewrite removelast_last.
  destruct n as [st pe]; cbn in *; subst; reflexivity.
Qed.

Lemma push_then_pop_restores_witness :
  transition (transition initial (Push (VStr "details") (VObj 40 [("id", VNum 7)]))) Pop
  = initial.
Proof.
  apply (push_then_pop_restores initial (VStr "details") (VObj 40 [("id", VNum 7)]));
    [reflexivity | discriminate].
Defined.


(** X13.  After a [push] carried through, the new entry is on top with the
    params given ([{}] when none are).  What the next render picks for a tab
    that passed validation, when the name converts to a property key: the
    tab's root component for the string [__root__], even when the tab
    declares a screen so named; the placeholder when [tab.screens] is falsy;
    otherwise the truthy value [tab.screens] holds under the key as an own
    property, a member of a prototype of [tab.screens] when it has no own
    property under the key and the engine finds a truthy one ([constructor],
    [toString]), and the placeholder otherwise.  When [tab.screens] is truthy
    and the name is not [__root__] and does not convert to a key, the render
    throws what the conversion throws. *)
Theorem push_picks_the_screen (n : navigator) (name args tab : value)
  (inherits : value -> string -> bool) :
  pending n = [] ->
  tabWellFormed tab ->
  getParams (transition n (Push name args)) =
    Ok (if nullish args then VObj 0 [] else args) /\
  (forall key, propKey name = Ok key ->
     render inherits tab (transition n (Push name args)) =
       Ok (if strictEq name (VStr "__root__") then RootComponent
           else if negb (truthy (prop tab "screens")) then NotFound name
           else match ownMember (prop tab "screens") key with
                | Some v => if truthy v then SubScreen key v else NotFound name
                | None => if inherits (prop tab "screens") key
                          then Inherited key else NotFound name
                end)) /\
  (forall e, propKey name = Throw e ->
     strictEq name (VStr "__root__") = false ->
     truthy (prop tab "screens") = true ->
     render inherits tab (transition n (Push name args)) = Throw e).
Proof.
  intros Hp _; rewrite (transition_push n name args Hp).
  unfold getParams, render; rewrite current_after_append; cbn [params screenName].
  split; [reflexivity|]; split.
  - intros key Hk; rewrite Hk; cbn [bind]; unfold lookupScreen.
    destruct (strictEq name (VStr "__root__")); [reflexivity|].
    destruct (negb (truthy (prop tab "screens"))); reflexivity.
  - intros e Hk Hroot Hscreens; rewrite Hk, Hroot, Hscreens; reflexivity.
Qed.

Lemma push_picks_the_screen_witness :
  getParams (transition initial (Push (VStr "details") VUndefined)) = Ok (VObj 0 []) /\
  render SampleRuns.inheritsConstructor SampleRuns.tabWithPlayer
    (transition initial (Push (VStr "details") VUndefined)) =
    Ok (NotFound (VStr "details")) /\
  render SampleRuns.inheritsConstructor SampleRuns.tabWithPlayer
    (transition initial (Push (VStr "constructor") VUndefined)) =
    Ok (Inherited "constructor").
Proof.
  assert (Hwf : tabWellFormed SampleRuns.tabWithPlayer)
    by (split; [reflexivity | intros tf; destruct tf; reflexivity]).
  split; [|split].
  - exact (proj1 (push_picks_the_screen initial (VStr "details") VUndefined
                    SampleRuns.tabWithPlayer SampleRuns.inheritsConstructor eq_refl Hwf)).
  - exact (proj1 (proj2 (push_picks_the_screen initial (VStr "details") VUndefined
                           SampleRuns.tabWithPlayer SampleRuns.inheritsConstructor
                           eq_refl Hwf)) "details" eq_refl).
  - exact (proj1 (proj2 (push_picks_the_screen initial (VStr "constructor") VUndefined
                           SampleRuns.tabWithPlayer SampleRuns.inheritsConstructor
                           eq_refl Hwf)) "constructor" eq_refl).
Defined.


Lemma removelast_length_le (A : Type) (l : list A) :
  (List.length (removelast l) <= List.length l)%nat.
Proof.
  induction l as [|x l IH]; [simpl; lia|].
  destruct l; simpl in *; lia.
Qed.

Lemma transition_depth (n : navigator) (c : call) :
  pending n = [] -> stack n <> [] ->
  (List.length (stack (transition n c)) <=
   List.length (stack n) + match c with Push _ _ => 1 | _ => 0 end)%nat.
Proof.
  intros Hp Hne; destruct c as [name args| |].
  - rewrite (transition_push n name args Hp); cbn [stack].
    rewrite length_app; simpl; lia.
  - unfold transition, navigate, navigateSeeing, animateTransition, midpoint.
    destruct (Nat.leb (List.length (stack n)) 1); [rewrite Hp; lia|].
    cbn [pending stack]; rewrite Hp; cbn [app stack applyUpdater].
    pose proof (removelast_length_le _ (stack n)); lia.
  - unfold transition, navigate, navigateSeeing, animateTransition, midpoint.
    cbn [pending stack]; rewrite Hp; cbn [app stack applyUpdater List.length].
    destruct (stack n); [congruence | simpl; lia].
Qed.

(** X14.  When every call goes through the navigation object of the latest
    render and every transition is carried through before the next call is
    made, the stack never empties: the render always finds a current entry
    (for a tab that is an object, it picks the root component whenever that
    entry is the root entry),
    [getParams] never throws, and the stack is never deeper than one more
    than the number of [push] calls made. *)
Theorem sequential_navigation_keeps_a_current_entry (cs : list call) :
  (exists e, current (runSequential cs initial) = Some e) /\
  (exists v, getParams (runSequential cs initial) = Ok v) /\
  (forall inherits tab,
     nullish tab = false ->
     option_map screenName (current (runSequential cs initial)) = Some (VStr "__root__") ->
     render inherits tab (runSequential cs initial) = Ok RootComponent) /\
  (List.length (stack (runSequential cs initial)) <= 1 + pushes cs)%nat.
Proof.
  assert (H : forall n, pending n = [] -> wellRooted n ->
                        pending (runSequential cs n) = [] /\
                        wellRooted (runSequential cs n) /\
                        (List.length (stack (runSequential cs n)) <=
                         List.length (stack n) + pushes cs)%nat).
  { induction cs as [|c cs IH]; intros n Hp Hr; [repeat split; auto; simpl; lia|].
    cbn [runSequential fold_left].
    destruct (transition_keeps_root n c Hp Hr) as [Hp' Hr'].
    destruct (IH _ Hp' Hr') as (H1 & H2 & H3).
    repeat split; auto.
    assert (Hne : stack n <> []) by (destruct Hr as [r ->]; discriminate).
    pose proof (transition_depth n c Hp Hne).
    fold (runSequential cs (transition n c)).
    destruct c; cbn [pushes]; lia. }
  destruct (H initial eq_refl (ex_intro _ [] eq_refl)) as (_ & [rest Hs] & Hdepth).
  change (List.length (stack initial)) with 1%nat in Hdepth.
  unfold render, getParams, current; rewrite Hs in *.
  split; [eexists; reflexivity|]; split; [eexists; reflexivity|]; split; [|lia].
  intros inherits tab _ Hroot; cbn [option_map] in Hroot.
  injection Hroot as ->; reflexivity.
Qed.

Lemma sequential_navigation_keeps_a_current_entry_witness :
  render SampleRuns.inheritsConstructor SampleRuns.tabWithPlayer
    (runSequential [Push (VStr "player") VNull; Pop; Pop; PopToRoot] initial) =
    Ok RootComponent.
Proof.
  exact (proj1 (proj2 (proj2
           (sequential_navigation_keeps_a_current_entry
              [Push (VStr "player") VNull; Pop; Pop; PopToRoot])))
           SampleRuns.inheritsConstructor SampleRuns.tabWithPlayer eq_refl eq_refl).
Defined.

Lemma react_without_pop (n : navigator) (e : event) :
  notPop e = true ->
  wellRooted n -> forallb notDropLast (pending n) = true ->
  wellRooted (react n e) /\ forallb notDropLast (pending (react n e)) = true.
Proof.
  intros He [rest Hs] Hp;
    destruct e as [[name args| |]|seen [name args| |]|]; try discriminate;
    unfold react, navigate, navigateSeeing, animateTransition, midpoint.
  - split; [exists rest; exact Hs|].
    cbn [pending]; rewrite forallb_app, Hp; reflexivity.
  - split; [exists rest; exact Hs|].
    cbn [pending]; rewrite forallb_app, Hp; reflexivity.
  - split; [exists rest; exact Hs|].
    cbn [pending]; rewrite forallb_app, Hp; reflexivity.
  - split; [exists rest; exact Hs|].
    cbn [pending]; rewrite forallb_app, Hp; reflexivity.
  - destruct (pending n) as [|u us] eqn:Hpe; [split; [exists rest; exact Hs | rewrite Hpe; exact Hp]|].
    cbn [forallb] in Hp; apply andb_true_iff in Hp as [Hu Hus].
    cbn [stack pending]; split; [|exact Hus].
    destruct u as [e| |]; [|discriminate|]; cbn [applyUpdater].
    + rewrite Hs; eexists; reflexivity.
    + exists []; reflexivity.
Qed.

(** X15.  Only [pop] can break the stack: over any run, calls and midpoints
    interleaved at will, in which no [pop] is called, the stack is never
    empty and its first entry is the root entry. *)
Theorem navigation_without_pop_keeps_root (es : list event) :
  forallb notPop es = true ->
  wellRooted (run es initial) /\
  (1 <= List.length (stack (run es initial)))%nat.
Proof.
  assert (H : forall n, forallb notPop es = true ->
                        wellRooted n -> forallb notDropLast (pending n) = true ->
                        wellRooted (run es n)).
  { induction es as [|e es IH]; intros n Hall Hr Hp; [exact Hr|].
    cbn [forallb] in Hall; apply andb_true_iff in Hall as [He Hes].
    cbn [run fold_left].
    destruct (react_without_pop n e He Hr Hp) as [Hr' Hp'].
    apply (IH _ Hes Hr' Hp'). }
  intros Hall.
  destruct (H initial Hall (ex_intro _ [] eq_refl) eq_refl) as [rest Hs].
  split; [exists rest; exact Hs | rewrite Hs; simpl; lia].
Qed.

Lemma navigation_without_pop_keeps_root_witness :
  (1 <= List.length
          (stack (run [Call (Push (VStr "a") VNull); Call PopToRoot;
                       Call (Push (VStr "b") VNull);
                       Midpoint; Midpoint; Midpoint] initial)))%nat.
Proof.
  exact (proj2 (navigation_without_pop_keeps_root
                  [Call (Push (VStr "a") VNull); Call PopToRoot;
                   Call (Push (VStr "b") VNull);
                   Midpoint; Midpoint; Midpoint] eq_refl)).
Defined.


End NavigationMore.

(* ------------------------------------------------------------------ *)
(** * Further properties of the audio bridge *)

Section AudioMore.

Import MediaPlayerContext.
Import MediaPlayerRuns.

Lemma musicClear_web (p : provider) (ms : mediaSession) :
  os p = Web -> webSession p = Some ms ->
  os (musicClear p) = Web /\
  notifInfo (musicClear p) = None /\
  handlersRef (musicClear p) = handlersRef p /\
  (exists ms', webSession (musicClear p) = Some ms') /\
  forall a, registered (musicClear p) a = None.
Proof.
  intros Hos Hms; unfold musicClear, registered; rewrite Hos, Hms.
  cbn [os notifInfo handlersRef webSession clearWebMediaSession actionHandler].
  repeat split; auto. eexists; reflexivity.
Qed.

Lemma applyBridge_web (p : provider) (ms : mediaSession) (c : bridgeCall) :
  os p = Web -> webSession p = Some ms ->
  os (applyBridge p c) = Web /\ exists ms', webSession (applyBridge p c) = Some ms'.
Proof.
  intros Hos Hms; destruct c as [info|h|]; cbn [applyBridge].
  - destruct (musicUpdate_web info p ms Hos Hms) as (H1 & _ & _ & H4 & _); auto.
  - destruct (musicSetHandlers_web h p ms Hos Hms) as (H1 & _ & H3 & _); auto.
  - destruct (musicClear_web p ms Hos Hms) as (H1 & _ & _ & H4 & _); auto.
Qed.

Lemma applyBridge_keeps_registered (p : provider) (ms : mediaSession) (c : bridgeCall)
  (a : mediaAction) (f : callback) :
  os p = Web -> webSession p = Some ms -> notClear c = true ->
  registered p a = Some f -> exists g, registered (applyBridge p c) a = Some g.
Proof.
  intros Hos Hms Hc Hreg; destruct c as [info|h|]; [| |discriminate]; cbn [applyBridge].
  - destruct (musicUpdate_web info p ms Hos Hms) as (_ & _ & _ & _ & H5).
    rewrite H5, Hreg; destruct (handlerFor (handlersRef p) a); eexists; reflexivity.
  - destruct (musicSetHandlers_web h p ms Hos Hms) as (_ & _ & _ & H4).
    rewrite H4, Hreg.
    destruct (notifInfo p); [destruct (handlerFor h a)|]; eexists; reflexivity.
Qed.

(** X16.  In a browser, short of [clear], nothing is ever unregistered: over
    any run of [update] and [setHandlers] calls, an action of the Media
    Session that has a handler keeps having one, whatever the handler sets
    given later leave out. *)
Theorem registered_actions_stay_registered (cs : list bridgeCall) (p : provider)
  (ms : mediaSession) (a : mediaAction) (f : callback) :
  os p = Web ->
  webSession p = Some ms ->
  forallb notClear cs = true ->
  registered p a = Some f ->
  exists g, registered (runBridge cs p) a = Some g.
Proof.
  revert p ms f; induction cs as [|c cs IH]; intros p ms f Hos Hms Hall Hreg.
  - exists f; exact Hreg.
  - cbn [forallb] in Hall; apply andb_true_iff in Hall as [Hc Hcs].
    cbn [runBridge fold_left].
    destruct (applyBridge_web p ms c Hos Hms) as (Hos' & ms' & Hms').
    destruct (applyBridge_keeps_registered p ms c a f Hos Hms Hc Hreg) as [g Hg].
    apply (IH _ ms' g Hos' Hms' Hcs Hg).
Qed.

Lemma registered_actions_stay_registered_witness :
  exists g,
    registered
      (runBridge [CallSetHandlers (Sample.onlyPause "f2"); CallUpdate Sample.song;
                  CallSetHandlers noHandlers]
         SampleRuns.browserPlaying) ActPlay = Some g.
Proof.
  eapply (registered_actions_stay_registered
           [CallSetHandlers (Sample.onlyPause "f2"); CallUpdate Sample.song;
            CallSetHandlers noHandlers]
           SampleRuns.browserPlaying _ ActPlay "f1");
    reflexivity.
Defined.


(** X17.  In a browser, [clear] takes every handler off the Media Session, so
    that no press reaches the extension, but the provider keeps the handler
    set: the next [update] (of a render that has seen the clear) registers it
    again, as it stands. *)
Theorem clear_unregisters_but_remembers (p : provider) (ms : mediaSession)
  (info : musicNotificationInfo) (a : mediaAction) (t : number) :
  os p = Web ->
  webSession p = Some ms ->
  platformPress a t (musicClear p) = [] /\
  notifInfo (musicClear p) = None /\
  handlersRef (musicClear p) = handlersRef p /\
  registered (musicUpdate info (musicClear p)) a = handlerFor (handlersRef p) a.
Proof.
  intros Hos Hms.
  destruct (musicClear_web p ms Hos Hms) as (Hos' & Hinfo & Href & (ms' & Hms') & Hreg).
  split; [|split; [exact Hinfo | split; [exact Href|]]].
  - rewrite (platformPress_web _ _ _ Hos'), Hreg; reflexivity.
  - destruct (musicUpdate_web info (musicClear p) ms' Hos' Hms') as (_ & _ & _ & _ & H5).
    rewrite H5, Hreg, Href; destruct (handlerFor (handlersRef p) a); reflexivity.
Qed.

Lemma clear_unregisters_but_remembers_witness :
  platformPress ActPlay 0%float (musicClear SampleRuns.browserPlaying) = [] /\
  registered (musicUpdate Sample.song (musicClear SampleRuns.browserPlaying)) ActPlay =
    Some "f1".
Proof.
  assert (H : exists ms, webSession SampleRuns.browserPlaying = Some ms)
    by (eexists; reflexivity).
  destruct H as [ms Hms].
  destruct (clear_unregisters_but_remembers SampleRuns.browserPlaying ms
              Sample.song ActPlay 0%float eq_refl Hms) as (H1 & _ & _ & H4).
  split; [exact H1 | exact H4].
Defined.


Lemma applyBridge_native (p : provider) (c : bridgeCall) :
  os p = NativeOS ->
  os (applyBridge p c) = NativeOS /\ webSession (applyBridge p c) = webSession p.
Proof.
  intros Hos; destruct c as [info|h|]; cbn [applyBridge].
  - unfold musicUpdate, synchronise; cbn [os]; rewrite Hos; split; reflexivity.
  - unfold musicSetHandlers, musicSetHandlersSeeing, synchronise.
    destruct (notifInfo p); cbn [os]; rewrite ?Hos; split; reflexivity.
  - unfold musicClear; rewrite Hos; split; reflexivity.
Qed.

(** X18.  On a device the handlers are never wired: over any run of calls to
    the bridge, no press of any button reaches the extension and the Media
    Session of the browser side is left alone; and which handler set is given
    makes no difference to the notification. *)
Theorem native_never_relays_presses (cs : list bridgeCall) (p : provider)
  (a : mediaAction) (t : number) (h h' : musicNotificationHandlers) :
  os p = NativeOS ->
  platformPress a t (runBridge cs p) = [] /\
  webSession (runBridge cs p) = webSession p /\
  native (musicSetHandlers h p) = native (musicSetHandlers h' p).
Proof.
  intros Hos.
  assert (H : os (runBridge cs p) = NativeOS /\ webSession (runBridge cs p) = webSession p).
  { revert p Hos; induction cs as [|c cs IH]; intros p Hos; [split; auto|].
    cbn [runBridge fold_left].
    destruct (applyBridge_native p c Hos) as [Hos' Hweb'].
    destruct (IH _ Hos') as [H1 H2]; split; [exact H1 | rewrite <- Hweb'; exact H2]. }
  destruct H as [Hos' Hweb]; split; [|split; [exact Hweb|]].
  - apply native_press_reaches_nothing, Hos'.
  - unfold musicSetHandlers, musicSetHandlersSeeing, synchronise.
    destruct (notifInfo p); cbn [os]; rewrite ?Hos; reflexivity.
Qed.

Lemma native_never_relays_presses_witness :
  platformPress ActPause 0%float
    (runBridge [CallSetHandlers (Sample.onlyPause "f2"); CallUpdate Sample.song]
       SampleRuns.device) = [].
Proof.
  exact (proj1 (native_never_relays_presses
                  [CallSetHandlers (Sample.onlyPause "f2"); CallUpdate Sample.song]
                  SampleRuns.device ActPause 0%float noHandlers noHandlers eq_refl)).
Defined.


End AudioMore.

(* ------------------------------------------------------------------ *)
(** * Further properties of the video player *)

Section VideoMore.

Import MediaPlayerContext.
Import LhubVideoPlayer.
Import LhubVideoPlayerRuns.

Lemma seconds_not_negative (x : option number) :
  notNegative x = true -> (0 <=? orElse x 0 / 1000)%float = true.
Proof.
  intros H; apply div_keeps_sign.
  destruct x as [q|]; [exact H | reflexivity].
Qed.

Lemma invoke_times (f : option callback) (pl : player) :
  LhubVideoPlayer.duration (invoke f pl) = LhubVideoPlayer.duration pl /\
  LhubVideoPlayer.position (invoke f pl) = LhubVideoPlayer.position pl /\
  buffered (invoke f pl) = buffered pl.
Proof. destruct f; repeat split. Qed.

Lemma applyEvent_times (pl : player) (ev : playerEvent) :
  plausible ev = true -> timesSound pl -> timesSound (applyEvent pl ev).
Proof.
  intros Hev (Hd & Hp & Hb); destruct ev as [st| | | |s|s]; cbn [applyEvent];
    try (repeat split; assumption).
  - cbn [plausible] in Hev.
    apply andb_true_iff in Hev as [Hev Hplay]; apply andb_true_iff in Hev as [Hdur Hpos].
    unfold onStatus.
    destruct (isLoaded st); cbn [negb].
    + match goal with
      | |- timesSound (if ?c then invoke ?f ?x else ?y) =>
          assert (Hy : timesSound y); [|destruct c; [|exact Hy]]
      end.
      * repeat split; cbn [LhubVideoPlayer.duration LhubVideoPlayer.position buffered].
        -- apply seconds_not_negative, Hdur.
        -- apply seconds_not_negative, Hpos.
        -- destruct (playableDurationMillis st) as [b|]; [|exact Hb].
           destruct (truthyNumber b); [|exact Hb].
           apply (seconds_not_negative (Some b)), Hplay.
      * destruct Hy as (H1 & H2 & H3).
        destruct (onEnd _); repeat split; assumption.
    + destruct (st_error st) as [e|]; [destruct (String.eqb e "")|];
        repeat split; assumption.
  - unfold togglePlay.
    destruct (LhubVideoPlayer.isEnded pl); [|destruct (LhubVideoPlayer.isPlaying pl)];
      repeat split; assumption.
Qed.

(** X19.  The times a player holds are never negative, as doubles compare:
    from its mounting, over any run of engine statuses whose times, where
    given, are at least 0 (which [NaN] is not) and of calls of the controls,
    [duration], [position] and [buffered] stay at or above zero; so that the
    target of a [skip(s)] lies within the video whenever [position + s] is a
    number. *)
Theorem player_times_never_negative (o : videoPlayerOptions)
  (element : option (list engineCommand)) (evs : list playerEvent) (s : number) :
  forallb plausible evs = true ->
  timesSound (runPlayer evs (mount o element)) /\
  (is_nan (LhubVideoPlayer.position (runPlayer evs (mount o element)) + s)%float = false ->
   (0 <=? skipTarget (runPlayer evs (mount o element)) s)%float = true /\
   (skipTarget (runPlayer evs (mount o element)) s <=?
    LhubVideoPlayer.duration (runPlayer evs (mount o element)))%float = true).
Proof.
  intros Hall.
  assert (H : forall pl, timesSound pl -> timesSound (runPlayer evs pl)).
  { induction evs as [|ev evs IH]; intros pl Hpl; [exact Hpl|].
    cbn [forallb] in Hall; apply andb_true_iff in Hall as [Hev Hevs].
    cbn [runPlayer fold_left]; apply (IH Hevs), applyEvent_times; assumption. }
  assert (Hm : timesSound (mount o element)) by (repeat split; reflexivity).
  specialize (H _ Hm); split; [exact H|].
  apply skipTarget_bounds, H.
Qed.

Lemma player_times_never_negative_witness :
  (0 <=? skipTarget
           (runPlayer [EvStatus SampleRuns.halfWay; EvSkip 10%float;
                       EvStatus SampleRuns.finished; EvTogglePlay]
              (mount Sample.optionsA (Some []))) (-30)%float)%float = true.
Proof.
  exact (proj1 (proj2
           (player_times_never_negative Sample.optionsA (Some [])
              [EvStatus SampleRuns.halfWay; EvSkip 10%float; EvStatus SampleRuns.finished;
               EvTogglePlay] (-30)%float eq_refl) eq_refl)).
Defined.


(** X20.  The ended flag is raised by the engine and lowered by [togglePlay]
    alone: a loaded status that has just finished, on a video that does not
    loop, raises it and calls the caller's [onEnd] once; no later status
    lowers it; the other controls leave it as it is; and on a looping video
    no status raises it or calls [onEnd]. *)
Theorem ended_flag_lifecycle (st : status) (pl : player) :
  isLoaded st = true ->
  didJustFinish st = true ->
  orElse (loop (options pl)) false = false ->
  (LhubVideoPlayer.isEnded (onStatus st pl) = true /\
   called (onStatus st pl) =
     (called pl ++ match onEnd (options pl) with Some f => [f] | None => [] end)%list) /\
  (forall st' pl', LhubVideoPlayer.isEnded pl' = true ->
                   LhubVideoPlayer.isEnded (onStatus st' pl') = true) /\
  (forall s pl',
     LhubVideoPlayer.isEnded (play pl') = LhubVideoPlayer.isEnded pl' /\
     LhubVideoPlayer.isEnded (pause pl') = LhubVideoPlayer.isEnded pl' /\
     LhubVideoPlayer.isEnded (seek s pl') = LhubVideoPlayer.isEnded pl' /\
     LhubVideoPlayer.isEnded (skip s pl') = LhubVideoPlayer.isEnded pl') /\
  (forall st' pl', loop (options pl') = Some true ->
                   LhubVideoPlayer.isEnded (onStatus st' pl') = LhubVideoPlayer.isEnded pl' /\
                   called (onStatus st' pl') = called pl').
Proof.
  intros Hl Hf Hloop; split; [|split; [|split]].
  - unfold onStatus; rewrite Hl, Hf; cbn [negb options]; rewrite Hloop; cbn [andb negb].
    destruct (onEnd (options pl)); cbn [invoke setIsEnded LhubVideoPlayer.isEnded called options];
      [split; reflexivity | split; [reflexivity | symmetry; apply app_nil_r]].
  - intros st' pl' He; unfold onStatus.
    destruct (isLoaded st'); cbn [negb].
    + cbn [options]; destruct (didJustFinish st' && _).
      * destruct (onEnd (options pl')); reflexivity.
      * exact He.
    + destruct (st_error st') as [e|]; [destruct (String.eqb e "")|]; exact He.
  - intros s pl'; repeat split.
  - intros st' pl' Hloop'; unfold onStatus.
    destruct (isLoaded st'); cbn [negb].
    + cbn [options]; rewrite Hloop'; cbn [orElse negb]; rewrite andb_false_r.
      split; reflexivity.
    + destruct (st_error st') as [e|]; [destruct (String.eqb e "")|]; split; reflexivity.
Qed.

Lemma ended_flag_lifecycle_witness :
  LhubVideoPlayer.isEnded (onStatus SampleRuns.finished Sample.playingAt95) = true /\
  called (onStatus SampleRuns.finished Sample.playingAt95) = ["onEndA"].
Proof.
  exact (proj1 (ended_flag_lifecycle SampleRuns.finished Sample.playingAt95
                  eq_refl eq_refl eq_refl)).
Defined.


Lemma invoke_error (f : option callback) (pl : player) :
  LhubVideoPlayer.error (invoke f pl) = LhubVideoPlayer.error pl.
Proof. destruct f; reflexivity. Qed.

Lemma applyEvent_error (pl : player) (ev : playerEvent) :
  LhubVideoPlayer.error pl <> "" -> LhubVideoPlayer.error (applyEvent pl ev) <> "".
Proof.
  intros He; destruct ev as [st| | | |s|s]; cbn [applyEvent]; try exact He.
  - unfold onStatus; destruct (isLoaded st); cbn [negb].
    + match goal with
      | |- LhubVideoPlayer.error (if ?c then _ else _) <> _ => destruct c
      end; [rewrite invoke_error|]; exact He.
    + destruct (st_error st) as [e|]; [|exact He].
      destruct (String.eqb e "") eqn:E; [exact He|].
      cbn [LhubVideoPlayer.error]; intros ->; discriminate.
  - unfold togglePlay.
    destruct (LhubVideoPlayer.isEnded pl); [|destruct (LhubVideoPlayer.isPlaying pl)];
      exact He.
Qed.

(** X21.  An error, once shown, stays: over any run of statuses and controls
    the [error] of a player that has one is never cleared (a later unloaded
    status can only put another error in its place).  And a status that is
    not loaded tells the player nothing else: playing, times, buffering, the
    ended flag and the callbacks called are as they were. *)
Theorem player_error_is_sticky (evs : list playerEvent) (pl : player) (st : status) :
  LhubVideoPlayer.error pl <> "" ->
  isLoaded st = false ->
  LhubVideoPlayer.error (runPlayer evs pl) <> "" /\
  LhubVideoPlayer.error (onStatus st pl) <> "" /\
  LhubVideoPlayer.isPlaying (onStatus st pl) = LhubVideoPlayer.isPlaying pl /\
  LhubVideoPlayer.duration (onStatus st pl) = LhubVideoPlayer.duration pl /\
  LhubVideoPlayer.position (onStatus st pl) = LhubVideoPlayer.position pl /\
  buffered (onStatus st pl) = buffered pl /\
  isBuffering (onStatus st pl) = isBuffering pl /\
  LhubVideoPlayer.isEnded (onStatus st pl) = LhubVideoPlayer.isEnded pl /\
  called (onStatus st pl) = called pl.
Proof.
  intros He Hl; split; [|split].
  - revert pl He; induction evs as [|ev evs IH]; intros pl He; [exact He|].
    cbn [runPlayer fold_left]; apply IH, applyEvent_error, He.
  - apply (applyEvent_error pl (EvStatus st) He).
  - unfold onStatus; rewrite Hl; cbn [negb].
    destruct (st_error st) as [e|]; [destruct (String.eqb e "")|]; repeat split.
Qed.

Lemma player_error_is_sticky_witness :
  LhubVideoPlayer.error
    (runPlayer [EvStatus SampleRuns.halfWay; EvTogglePlay; EvStatus SampleRuns.finished]
       SampleRuns.failed) <> "".
Proof.
  apply (player_error_is_sticky
           [EvStatus SampleRuns.halfWay; EvTogglePlay; EvStatus SampleRuns.finished]
           SampleRuns.failed SampleRuns.unloaded);
    [discriminate | reflexivity].
Defined.


(** Every control comes to one command sent through [videoRef], and at most
    a lowering of the ended flag. *)
Lemma control_is_one_command (ev : playerEvent) (pl : player) :
  isControl ev = true ->
  exists cmd, applyEvent pl ev = issue cmd pl \/
              applyEvent pl ev = setIsEnded false (issue cmd pl).
Proof.
  intros Hc; destruct ev as [st| | | |s|s]; [discriminate|..]; cbn [applyEvent];
    unfold play, pause, togglePlay, seek, skip.
  - exists PlayAsync; left; reflexivity.
  - exists PauseAsync; left; reflexivity.
  - destruct (LhubVideoPlayer.isEnded pl);
      [exists ReplayAsync; right; reflexivity|].
    destruct (LhubVideoPlayer.isPlaying pl);
      [exists PauseAsync | exists PlayAsync]; left; reflexivity.
  - eexists; left; reflexivity.
  - eexists; left; reflexivity.
Qed.

(** X22.  The controls only ever talk to the engine: a call of a control
    leaves what the player knows of the playback (playing, times, buffering,
    error, callbacks called) as it was, whatever the control; with an engine
    mounted it sends exactly one command, and with none it sends nothing. *)
Theorem controls_only_send_commands (ev : playerEvent) (pl : player) :
  isControl ev = true ->
  LhubVideoPlayer.isPlaying (applyEvent pl ev) = LhubVideoPlayer.isPlaying pl /\
  LhubVideoPlayer.duration (applyEvent pl ev) = LhubVideoPlayer.duration pl /\
  LhubVideoPlayer.position (applyEvent pl ev) = LhubVideoPlayer.position pl /\
  buffered (applyEvent pl ev) = buffered pl /\
  isBuffering (applyEvent pl ev) = isBuffering pl /\
  LhubVideoPlayer.error (applyEvent pl ev) = LhubVideoPlayer.error pl /\
  called (applyEvent pl ev) = called pl /\
  (videoRef pl = None -> videoRef (applyEvent pl ev) = None) /\
  (forall log, videoRef pl = Some log ->
               exists cmd, videoRef (applyEvent pl ev) = Some (log ++ [cmd])%list).
Proof.
  intros Hc; destruct (control_is_one_command ev pl Hc) as (cmd & [-> | ->]);
    repeat (split; [reflexivity|]);
    (split; [intros H; cbn [issue setIsEnded videoRef]; rewrite H; reflexivity
            | intros log H; cbn [issue setIsEnded videoRef]; rewrite H;
              exists cmd; reflexivity]).
Qed.

Lemma controls_only_send_commands_witness :
  LhubVideoPlayer.position (applyEvent Sample.playingAt95 (EvSeek 12%float)) =
    LhubVideoPlayer.position Sample.playingAt95 /\
  exists cmd, videoRef (applyEvent Sample.playingAt95 (EvSeek 12%float)) = Some ([] ++ [cmd])%list.
Proof.
  destruct (controls_only_send_commands (EvSeek 12%float) Sample.playingAt95 eq_refl)
    as (_ & _ & Hpos & _ & _ & _ & _ & _ & Hcmd).
  split; [exact Hpos | apply Hcmd; reflexivity].
Defined.


End VideoMore.

(* ------------------------------------------------------------------ *)
(** * The tab bar over the installed extensions *)

Section TabBar.

Import ExtensionProviderRuns.
Import TabLayout.

Variable runModule : string -> moduleOutcome.
Variable loadAsync : buffer -> zipOutcome.
Variable jszipLoads : bool.






End TabBar.

Section TabBarShape.

Import ExtensionProviderRuns.
Import TabLayout.






(** The key of a tab of an extension, when it prints, has the separator. *)
Lemma ext_entry_key (eid tabId label icon iconActive : value) (u : option string)
  (tabObj : value) (key : string) :
  tabKey (ExtTab eid tabId label icon iconActive u tabObj) = Ok key ->
  includes "__" key = true.
Proof.
  cbn [tabKey].
  destruct (toStr eid) as [e|]; [|discriminate]; cbn [bind].
  destruct (toStr tabId) as [i|]; [|discriminate]; cbn [bind].
  intros H; injection H as <-; apply includes_append_r.
  apply (includes_here "__" i).
Qed.




Lemma findTab_skips (key : string) (l r : list anyTab) :
  (forall t, In t l -> exists k, tabKey t = Ok k /\ String.eqb k key = false) ->
  findTab key (l ++ r) = findTab key r.
Proof.
  induction l as [|x l IH]; intros H; cbn [app findTab]; [reflexivity|].
  destruct (H x (or_introl eq_refl)) as (k & Hk & Hne); rewrite Hk; cbn [bind].
  rewrite Hne; apply IH; intros t Ht; apply H; right; exact Ht.
Qed.

Lemma separator_free_key_differs (k key : string) :
  includes "__" k = true -> includes "__" key = false ->
  String.eqb k key = false.
Proof.
  intros Ht Hkey; destruct (String.eqb k key) eqn:E; [|reflexivity].
  apply String.eqb_eq in E; rewrite E in Ht; congruence.
Qed.









(** X25.  A tab whose key repeats an earlier one can never be shown: when an
    extension tab [first] is the first of the bar with its key, the keys of
    the tabs before it printing to other strings, asking for the screen of
    any tab of the same key renders the component of [first], whatever
    follows it in the bar.  (Validation does not ask the ids of an
    extension's tabs to differ.) *)
Theorem repeated_key_shows_first_tab (l1 l2 : list anyTab) (other : anyTab)
  (eid tabId label icon iconActive : value) (u : option string) (tabObj : value)
  (key : string) :
  let first := ExtTab eid tabId label icon iconActive u tabObj in
  tabKey first = Ok key ->
  (forall t, In t l1 -> exists k, tabKey t = Ok k /\ k <> key) ->
  truthy tabObj = true ->
  tabKey other = Ok key ->
  renderScreen key (l1 ++ first :: l2) = Ok (ShowNavigator tabObj).
Proof.
  intros first Hfirst Hl1 Htruthy _.
  pose proof (ext_entry_key eid tabId label icon iconActive u tabObj key Hfirst) as Hsep.
  unfold renderScreen.
  rewrite (separator_free_key_differs key "home" Hsep eq_refl).
  rewrite (separator_free_key_differs key "extensions" Hsep eq_refl).
  rewrite findTab_skips.
  - cbn [findTab]; fold first; rewrite Hfirst; cbn [bind].
    rewrite String.eqb_refl; subst first; cbn [bind]; rewrite Htruthy; reflexivity.
  - intros t Ht; destruct (Hl1 t Ht) as (k & Hk & Hne).
    exists k; split; [exact Hk | apply String.eqb_neq, Hne].
Qed.

Lemma repeated_key_shows_first_tab_witness :
  renderScreen "com.t.x__home"
    ([homeTab] ++ SampleRuns.barTabX :: [SampleRuns.barTabTwin; extensionsTab]) =
    Ok (ShowNavigator Sample.homeTab).
Proof.
  apply (repeated_key_shows_first_tab [homeTab] [SampleRuns.barTabTwin; extensionsTab]
           SampleRuns.barTabTwin (VStr "com.t.x") (VStr "home") (VStr "Home") (VStr "home")
           VUndefined (Some "data:image/png;base64,AAAA") Sample.homeTab "com.t.x__home").
  - reflexivity.
  - intros t [<-|[]]; exists "home"; split; [reflexivity | discriminate].
  - reflexivity.
  - reflexivity.
Defined.


Lemma last_cons_default (A : Type) (l : list A) (x d : A) :
  last (x :: l) d = last l x.
Proof.
  revert x d; induction l as [|y l IH]; intros x d; [reflexivity|].
  change (last (x :: y :: l) d) with (last (y :: l) d).
  rewrite (IH y d), (IH y x); reflexivity.
Qed.

Lemma applyLayout_keeps_target (st : layout) (ev : layoutEvent) :
  last (midpoints st) (renderedKey st) = activeKey st ->
  last (midpoints (applyLayout st ev)) (renderedKey (applyLayout st ev)) =
    activeKey (applyLayout st ev).
Proof.
  intros H; destruct ev as [l tab|]; cbn [applyLayout].
  - unfold handleTabPress.
    destruct (pressed l tab st) as [[key|]|e]; [|exact H..].
    cbn [midpoints renderedKey activeKey]; apply last_last.
  - unfold pageMidpoint.
    destruct (midpoints st) as [|key rest] eqn:E; [rewrite E; exact H|].
    cbn [midpoints renderedKey activeKey]; rewrite <- H.
    symmetry; apply last_cons_default.
Qed.

(** X26.  The screen catches up with the bar: however presses and transition
    midpoints interleave, the key the last transition in flight will render
    (the key on screen, when none is in flight) is the active key; and a press
    on the active tab starts nothing. *)
Theorem screen_catches_up_with_bar (evs : list layoutEvent) (l : list anyTab)
  (tab : anyTab) :
  last (midpoints (runLayout evs initialLayout))
       (renderedKey (runLayout evs initialLayout)) =
    activeKey (runLayout evs initialLayout) /\
  (tabKey tab = Ok (activeKey (runLayout evs initialLayout)) ->
   handleTabPress l tab (runLayout evs initialLayout) = runLayout evs initialLayout).
Proof.
  split.
  - assert (H : forall st, last (midpoints st) (renderedKey st) = activeKey st ->
                           last (midpoints (runLayout evs st)) (renderedKey (runLayout evs st))
                           = activeKey (runLayout evs st)).
    { induction evs as [|ev evs IH]; intros st Hst; [exact Hst|].
      cbn [runLayout fold_left]; apply IH, applyLayout_keeps_target, Hst. }
    apply H; reflexivity.
  - intros Hk; unfold handleTabPress, pressed; rewrite Hk; cbn [bind].
    rewrite String.eqb_refl; reflexivity.
Qed.

Lemma screen_catches_up_with_bar_witness :
  handleTabPress SampleRuns.barOfX SampleRuns.barTabTwin
    (runLayout [Press SampleRuns.barOfX extensionsTab;
                Press SampleRuns.barOfX SampleRuns.barTabX; TabLayout.Midpoint]
       initialLayout) =
  runLayout [Press SampleRuns.barOfX extensionsTab;
             Press SampleRuns.barOfX SampleRuns.barTabX; TabLayout.Midpoint] initialLayout.
Proof.
  exact (proj2 (screen_catches_up_with_bar
                  [Press SampleRuns.barOfX extensionsTab;
                   Press SampleRuns.barOfX SampleRuns.barTabX; TabLayout.Midpoint]
                  SampleRuns.barOfX SampleRuns.barTabTwin) eq_refl).
Defined.


End TabBarShape.


(** Two ids that differ for [!==] and print alike make two records of the
    collection and one record of the store. *)
Section AlikeIds.

Variable runModule : string -> moduleOutcome.
Variable loadAsync : buffer -> zipOutcome.
Variable jszipLoads : bool.



End AlikeIds.

